(** * patch-falcon: the post renderer and the excerpt helper of [srv/server.go]

    A shallow embedding of the three helper functions at the end of
    [srv/server.go] ([excerpt], [renderContent], [processInlineFormatting])
    together with the functions of Go's [strings] and [html/template]
    packages they call, and the properties of the rendering specification
    checked against them.

    A Go [string] is a sequence of bytes: [len] counts bytes and [s[i:j]]
    slices bytes.  It is modelled as [list ascii] ([ascii] is an 8-bit
    byte); string literals are read through [list_ascii_of_string]. *)

From Stdlib Require Import String Ascii List ZArith NArith Lia Bool Arith.
From Equations Require Import Equations.
Import ListNotations.

Open Scope string_scope.
Open Scope list_scope.

Coercion list_ascii_of_string : string >-> list.

(** The line feed of the Go literal ["\n"] and the double quote. *)
Definition LF : ascii := "010"%char.
Definition DQUOTE : ascii := "034"%char.

(** Equality of byte strings, Go's [==] on strings. *)
Fixpoint eqs (s t : list ascii) : bool :=
  match s, t with
  | [], [] => true
  | a :: s', b :: t' => Ascii.eqb a b && eqs s' t'
  | _, _ => false
  end.

(** The number of bytes of [s] equal to [c]. *)
Definition countByte (c : ascii) (s : list ascii) : nat :=
  length (filter (Ascii.eqb c) s).

(** A value together with the equation that says where it came from, for
    the termination proofs of the two loops of [processInlineFormatting]. *)
Definition inspect {A : Type} (a : A) : {b : A | a = b} := exist _ a eq_refl.

(** ** Package [strings] *)
Module strings.

(** [func HasPrefix(s, prefix string) bool]:
    [len(s) >= len(prefix) && s[:len(prefix)] == prefix]. *)
Fixpoint HasPrefix (s prefix : list ascii) {struct prefix} : bool :=
  match prefix, s with
  | [], _ => true
  | p :: prefix', a :: s' => Ascii.eqb a p && HasPrefix s' prefix'
  | _ :: _, [] => false
  end.

(** [func TrimPrefix(s, prefix string) string]: [s] without the leading
    [prefix]; [s] itself when it does not start with [prefix]. *)
Definition TrimPrefix (s prefix : list ascii) : list ascii :=
  if HasPrefix s prefix then skipn (length prefix) s else s.

(** [func Index(s, substr string) int]: the position of the first instance
    of [substr] in [s]; Go's [-1] is [None]. *)
Fixpoint Index (s substr : list ascii) : option nat :=
  match s with
  | [] => if HasPrefix [] substr then Some 0 else None
  | _ :: t =>
      if HasPrefix s substr then Some 0 else option_map S (Index t substr)
  end.

(** [func LastIndex(s, substr string) int]: the position of the last
    instance of [substr] in [s]; Go's [-1] is [None]. *)
Fixpoint LastIndex (s substr : list ascii) : option nat :=
  match s with
  | [] => if HasPrefix [] substr then Some 0 else None
  | _ :: t =>
      match LastIndex t substr with
      | Some i => Some (S i)
      | None => if HasPrefix s substr then Some 0 else None
      end
  end.

(** [func Split(s, sep string) []string] for a one-byte separator (the
    source only splits on ["\n"]): the pieces between the separators, one
    more than there are separators; splitting the empty string gives one
    empty piece.  The separator test is a parameter so that the same
    splitting serves byte strings whose bytes carry a mark. *)
Fixpoint SplitBy {A : Type} (isSep : A -> bool) (s : list A) : list (list A) :=
  match s with
  | [] => [[]]
  | a :: t =>
      if isSep a then [] :: SplitBy isSep t
      else match SplitBy isSep t with
           | piece :: rest => (a :: piece) :: rest
           | [] => [[a]]
           end
  end.

Definition Split (s : list ascii) (sep : ascii) : list (list ascii) :=
  SplitBy (Ascii.eqb sep) s.

(** [func Join(elems []string, sep string) string]. *)
Fixpoint Join {A : Type} (elems : list (list A)) (sep : list A) : list A :=
  match elems with
  | [] => []
  | [e] => e
  | e :: rest => e ++ sep ++ Join rest sep
  end.

(** *** [TrimSpace]

    [func TrimSpace(s string) string] removes all leading and trailing
    white space as defined by Unicode: it decodes UTF-8 runes from the left
    while [unicode.IsSpace] holds, then from the right.  A decoded rune is
    white space exactly when the bytes at that place are the UTF-8 encoding
    of one of: U+0009..U+000D, U+0020 (one byte); U+0085, U+00A0 (two
    bytes); U+1680, U+2000..U+200A, U+2028, U+2029, U+202F, U+205F, U+3000
    (three bytes). *)
Definition isASCIISpace (c : ascii) : bool :=
  let n := N_of_ascii c in
  ((9 <=? n) && (n <=? 13) || (n =? 32))%N.

Definition isSpace2 (a b : ascii) : bool :=
  let '(a, b) := (N_of_ascii a, N_of_ascii b) in
  ((a =? 194) && ((b =? 133) || (b =? 160)))%N.

Definition isSpace3 (a b c : ascii) : bool :=
  let '(a, b, c) := (N_of_ascii a, N_of_ascii b, N_of_ascii c) in
  ((a =? 225) && (b =? 154) && (c =? 128)
   || (a =? 226) && (b =? 128)
      && ((128 <=? c) && (c <=? 138) || (c =? 168) || (c =? 169) || (c =? 175))
   || (a =? 226) && (b =? 129) && (c =? 159)
   || (a =? 227) && (b =? 128) && (c =? 128))%N.

(** The number of bytes taken by the white-space runes at the front of [s];
    with [back] the bytes of [s] are in reverse order (the string is read
    from its end), so a multi-byte rune shows its last byte first. *)
Fixpoint spaceRun (back : bool) (s : list ascii) : nat :=
  match s with
  | [] => 0
  | a :: t =>
      if isASCIISpace a then S (spaceRun back t)
      else match t with
           | [] => 0
           | b :: t2 =>
               if (if back then isSpace2 b a else isSpace2 a b)
               then S (S (spaceRun back t2))
               else match t2 with
                    | [] => 0
                    | c :: t3 =>
                        if (if back then isSpace3 c b a else isSpace3 a b c)
                        then S (S (S (spaceRun back t3)))
                        else 0
                    end
           end
  end.

(** The bounds [start] and [stop] of the slice [s[start:stop]] that
    [TrimSpace] returns. *)
Definition trimStart (s : list ascii) : nat := spaceRun false s.
Definition trimStop (s : list ascii) : nat :=
  length s - spaceRun true (rev (skipn (trimStart s) s)).

Definition TrimSpace (s : list ascii) : list ascii :=
  skipn (trimStart s) (firstn (trimStop s) s).

(** *** What [HasPrefix] and [Index] find *)

Lemma HasPrefix_split (s prefix : list ascii) :
  HasPrefix s prefix = true -> s = prefix ++ skipn (length prefix) s.
Proof.
  revert s; induction prefix as [|p prefix IH]; intros [|a s] H;
    simpl in *; try reflexivity; try discriminate.
  apply andb_prop in H as [Ha Hs].
  apply Ascii.eqb_eq in Ha; subst a.
  f_equal; auto.
Qed.

Lemma HasPrefix_app (prefix rest : list ascii) :
  HasPrefix (prefix ++ rest) prefix = true.
Proof.
  induction prefix as [|p prefix IH]; simpl; [reflexivity|].
  now rewrite Ascii.eqb_refl.
Qed.

Lemma Index_split (s substr : list ascii) (i : nat) :
  Index s substr = Some i ->
  s = firstn i s ++ substr ++ skipn (i + length substr) s.
Proof.
  revert i; induction s as [|a s IH]; intros i H.
  - simpl in H. destruct substr; simpl in H; [|discriminate].
    injection H as <-. reflexivity.
  - cbn [Index] in H.
    destruct (HasPrefix (a :: s) substr) eqn:Hp.
    + injection H as <-. now apply HasPrefix_split.
    + destruct (Index s substr) as [j|] eqn:Hj; [|discriminate].
      injection H as <-. specialize (IH j eq_refl).
      cbn [firstn Nat.add skipn app]. now rewrite <- IH.
Qed.

Lemma Index_bound (s substr : list ascii) (i : nat) :
  Index s substr = Some i -> i + length substr <= length s.
Proof.
  revert i; induction s as [|a s IH]; intros i H.
  - simpl in H. destruct substr; simpl in H; [|discriminate].
    injection H as <-. simpl. lia.
  - cbn [Index] in H.
    destruct (HasPrefix (a :: s) substr) eqn:Hp.
    + injection H as <-. apply HasPrefix_split in Hp.
      apply (f_equal (@length ascii)) in Hp. rewrite length_app in Hp. lia.
    + destruct (Index s substr) as [j|] eqn:Hj; [|discriminate].
      injection H as <-. specialize (IH j eq_refl). simpl. lia.
Qed.

End strings.

(** ** Package [html/template] *)
Module template.

(** [HTMLEscapeString] replaces, byte by byte, NUL by U+FFFD, the double
    quote by [&#34;], the apostrophe by [&#39;], [&] by [&amp;], [<] by
    [&lt;] and [>] by [&gt;]; every other byte is copied. *)
Definition escaped (c : ascii) : option (list ascii) :=
  if Ascii.eqb c "000" then Some ["239"; "191"; "189"]%char
  else if Ascii.eqb c DQUOTE then Some (list_ascii_of_string "&#34;")
  else if Ascii.eqb c "'" then Some (list_ascii_of_string "&#39;")
  else if Ascii.eqb c "&" then Some (list_ascii_of_string "&amp;")
  else if Ascii.eqb c "<" then Some (list_ascii_of_string "&lt;")
  else if Ascii.eqb c ">" then Some (list_ascii_of_string "&gt;")
  else None.

Definition HTMLEscapeString (s : list ascii) : list ascii :=
  flat_map (fun c => match escaped c with Some e => e | None => [c] end) s.

End template.

(** ** Package [srv]: the helper functions of [srv/server.go] *)
Module srv.

(** *** [excerpt] *)

(** Go's slice expression [s[:hi]]: a run-time panic ("slice bounds out of
    range") unless [0 <= hi <= len(s)].  [None] is the panic. *)
Definition sliceTo (s : list ascii) (hi : Z) : option (list ascii) :=
  if ((0 <=? hi) && (hi <=? Z.of_nat (length s)))%Z
  then Some (firstn (Z.to_nat hi) s)
  else None.

(** [func excerpt(content string, maxLen int) string]; [None] is a panic. *)
Definition excerpt (content : list ascii) (maxLen : Z) : option (list ascii) :=
  let content := strings.TrimSpace content in
  if (Z.of_nat (length content) <=? maxLen)%Z then Some content
  else
    match sliceTo content maxLen with
    | None => None
    | Some truncated =>
        let truncated :=
          match strings.LastIndex truncated " " with
          | Some idx =>
              if Nat.ltb 0 idx then firstn idx truncated else truncated
          | None => truncated
          end in
        Some (truncated ++ "...")
    end.


(** *** [renderContent]: the line loop *)

(** The variables of [renderContent] that the loop over the lines updates:
    the [strings.Builder], the two flags, and the open paragraph. *)
Record state : Type := mkState {
  sb : list ascii;
  inCodeBlock : bool;
  inList : bool;
  paragraph : list (list ascii)
}.

Definition initial : state := mkState [] false false [].

(** [sb.WriteString(s)]. *)
Definition WriteString (st : state) (s : list ascii) : state :=
  mkState (sb st ++ s) (inCodeBlock st) (inList st) (paragraph st).

Definition setInCodeBlock (st : state) (b : bool) : state :=
  mkState (sb st) b (inList st) (paragraph st).

Definition setInList (st : state) (b : bool) : state :=
  mkState (sb st) (inCodeBlock st) b (paragraph st).

Definition setParagraph (st : state) (p : list (list ascii)) : state :=
  mkState (sb st) (inCodeBlock st) (inList st) p.

(** The closure [flushParagraph]. *)
Definition flushParagraph (st : state) : state :=
  match paragraph st with
  | [] => st
  | _ :: _ =>
      let text := strings.Join (paragraph st) " " in
      let st := WriteString st "<p>" in
      let st := WriteString st (template.HTMLEscapeString text) in
      let st := WriteString st ("</p>" ++ [LF]) in
      setParagraph st []
  end.

(** [if inList { sb.WriteString("</ul>\n"); inList = false }], which the
    source repeats in four places. *)
Definition closeList (st : state) : state :=
  if inList st then setInList (WriteString st ("</ul>" ++ [LF])) false else st.

(** A header line: both [## ] and [# ] write an [<h2>]. *)
Definition writeHeader (st : state) (trimmed prefix : list ascii) : state :=
  let st := closeList (flushParagraph st) in
  let st := WriteString st "<h2>" in
  let st :=
    WriteString st
      (template.HTMLEscapeString (strings.TrimPrefix trimmed prefix)) in
  WriteString st ("</h2>" ++ [LF]).

(** One turn of [for _, line := range lines]; each [continue] of the
    source is a branch that returns. *)
Definition processLine (st : state) (line : list ascii) : state :=
  let trimmed := strings.TrimSpace line in
  (* Code blocks (4 spaces indent) *)
  let st :=
    if strings.HasPrefix line "    " && negb (inCodeBlock st) then
      let st := closeList (flushParagraph st) in
      setInCodeBlock (WriteString st "<pre><code>") true
    else st in
  if inCodeBlock st && strings.HasPrefix line "    " then
    let st :=
      WriteString st
        (template.HTMLEscapeString (strings.TrimPrefix line "    ")) in
    WriteString st [LF]
  else
    let st :=
      if inCodeBlock st
      then setInCodeBlock (WriteString st ("</code></pre>" ++ [LF])) false
      else st in
    (* Empty line *)
    if eqs trimmed [] then closeList (flushParagraph st)
    (* Headers *)
    else if strings.HasPrefix trimmed "## " then writeHeader st trimmed "## "
    else if strings.HasPrefix trimmed "# " then writeHeader st trimmed "# "
    (* List items *)
    else if strings.HasPrefix trimmed "- " then
      let st := flushParagraph st in
      let st :=
        if negb (inList st)
        then setInList (WriteString st ("<ul>" ++ [LF])) true
        else st in
      let st := WriteString st "<li>" in
      let st :=
        WriteString st
          (template.HTMLEscapeString (strings.TrimPrefix trimmed "- ")) in
      WriteString st ("</li>" ++ [LF])
    else setParagraph st (paragraph st ++ [trimmed]).

(** What follows the loop, up to [result := sb.String()]. *)
Definition finish (st : state) : state :=
  let st :=
    if inCodeBlock st then WriteString st ("</code></pre>" ++ [LF]) else st in
  let st := if inList st then WriteString st ("</ul>" ++ [LF]) else st in
  flushParagraph st.

(** The block-level HTML, before inline formatting. *)
Definition renderBlocks (content : list ascii) : list ascii :=
  sb (finish (fold_left processLine (strings.Split content LF) initial)).

(** *** [processInlineFormatting] *)

(** One turn of either [for] loop of [processInlineFormatting], for the
    delimiter [delim] and the tags [open] and [close]: [None] is a [break]
    (no delimiter, or no second delimiter after the first), [Some] the new
    value of [s].  Positions returned by [Index] are within [s], so the
    slices cannot panic. *)
Definition pairStep (delim open close s : list ascii) : option (list ascii) :=
  match strings.Index s delim with
  | None => None
  | Some start =>
      match strings.Index (skipn (start + length delim) s) delim with
      | None => None
      | Some e =>
          let end_ := e + (start + length delim) in
          Some (firstn start s ++ open
                  ++ skipn (start + length delim) (firstn end_ s) ++ close
                  ++ skipn (end_ + length delim) s)
      end
  end.

Definition boldStep : list ascii -> option (list ascii) :=
  pairStep "**" "<strong>" "</strong>".

Definition codeStep : list ascii -> option (list ascii) :=
  pairStep "`" "<code>" "</code>".

(** *** What one turn removes

    These facts come first: they are why the two loops can be defined as
    total functions. *)

Lemma countByte_app (c : ascii) (s t : list ascii) :
  countByte c (s ++ t) = countByte c s + countByte c t.
Proof. unfold countByte. now rewrite filter_app, length_app. Qed.

(** One turn rewrites [a ++ delim ++ m ++ delim ++ r] into
    [a ++ open ++ m ++ close ++ r]. *)
Lemma pairStep_split (delim open close s s' : list ascii) :
  pairStep delim open close s = Some s' ->
  exists a m r,
    s = a ++ delim ++ m ++ delim ++ r /\
    s' = a ++ open ++ m ++ close ++ r /\
    strings.Index s delim = Some (length a) /\
    strings.Index (m ++ delim ++ r) delim = Some (length m).
Proof.
  unfold pairStep. intros H.
  destruct (strings.Index s delim) as [start|] eqn:H1; [|discriminate].
  destruct (strings.Index (skipn (start + length delim) s) delim)
    as [e|] eqn:H2; [|discriminate].
  injection H as <-.
  pose proof (strings.Index_split _ _ _ H1) as E1.
  pose proof (strings.Index_split _ _ _ H2) as E2.
  set (k := start + length delim) in *.
  assert (Hm : skipn k (firstn (e + k) s) = firstn e (skipn k s)).
  { now rewrite firstn_skipn_comm, (Nat.add_comm k e). }
  assert (Hr : skipn (e + k + length delim) s
               = skipn (e + length delim) (skipn k s)).
  { rewrite skipn_skipn. f_equal. lia. }
  assert (Hs : start <= length s).
  { apply strings.Index_bound in H1. lia. }
  assert (He : e <= length (skipn k s)).
  { apply strings.Index_bound in H2. lia. }
  exists (firstn start s), (firstn e (skipn k s)),
    (skipn (e + length delim) (skipn k s)).
  rewrite Hm, Hr, <- E2, <- E1.
  rewrite !length_firstn, !Nat.min_l by assumption.
  auto.
Qed.

Lemma pairStep_countByte (c : ascii) (delim open close s s' : list ascii) :
  pairStep delim open close s = Some s' ->
  countByte c s' + 2 * countByte c delim
  = countByte c s + countByte c open + countByte c close.
Proof.
  intros H. apply pairStep_split in H as (a & m & r & -> & -> & _).
  rewrite !countByte_app. lia.
Qed.

(** The first loop, [// Bold: **text**]: every turn takes four [*] away. *)
Equations? boldLoop (s : list ascii) : list ascii by wf (countByte "*" s) lt :=
  boldLoop s with inspect (boldStep s) := {
    | exist _ (Some s') _ => boldLoop s';
    | exist _ None _ => s }.
Proof.
  pose proof (pairStep_countByte "*" _ _ _ _ _ e) as H.
  change (countByte "*" "**") with 2 in H.
  change (countByte "*" "<strong>") with 0 in H.
  change (countByte "*" "</strong>") with 0 in H.
  lia.
Qed.

(** The second loop, [// Inline code: `text`]: every turn takes two
    backticks away. *)
Equations? codeLoop (s : list ascii) : list ascii by wf (countByte "`" s) lt :=
  codeLoop s with inspect (codeStep s) := {
    | exist _ (Some s') _ => codeLoop s';
    | exist _ None _ => s }.
Proof.
  pose proof (pairStep_countByte "`" _ _ _ _ _ e) as H.
  change (countByte "`" "`") with 1 in H.
  change (countByte "`" "<code>") with 0 in H.
  change (countByte "`" "</code>") with 0 in H.
  lia.
Qed.

Definition processInlineFormatting (s : list ascii) : list ascii :=
  codeLoop (boldLoop s).

(** [func renderContent(content string) template.HTML]. *)
Definition renderContent (content : list ascii) : list ascii :=
  processInlineFormatting (renderBlocks content).

End srv.

(** ** The loops of [processInlineFormatting] as they run

    [runs step s r]: a [for { ... }] loop whose turn is [step], entered with
    the value [s], leaves through a [break] with the value [r]. *)
Inductive runs (step : list ascii -> option (list ascii)) :
  list ascii -> list ascii -> Prop :=
| runs_break s : step s = None -> runs step s s
| runs_turn s s' r : step s = Some s' -> runs step s' r -> runs step s r.

(** The number of delimiters in [s], read from left to right without
    overlap: a delimiter starts where [Index] finds one, and the reading goes
    on behind it.  [fuel] bounds the number of delimiters read; [length s]
    is enough. *)
Fixpoint delimitersFrom (fuel : nat) (delim s : list ascii) : nat :=
  match fuel with
  | 0 => 0
  | S fuel' =>
      match strings.Index s delim with
      | None => 0
      | Some i => S (delimitersFrom fuel' delim (skipn (i + length delim) s))
      end
  end.

Definition delimiters (delim s : list ascii) : nat :=
  delimitersFrom (length s) delim s.

(** Whether [sub] occurs in [s]: Go's [strings.Contains]. *)
Definition Contains (s sub : list ascii) : bool :=
  match strings.Index s sub with Some _ => true | None => false end.

(** ** Where every byte of the output comes from

    The same renderer over bytes that carry a mark: a byte of the input is
    marked [Input] and keeps its mark wherever it is copied; a byte of a
    literal that the renderer writes is marked [Tag]; a byte written by
    [HTMLEscapeString] in place of an input byte is marked [Entity]; the
    separator that [Join] puts between two lines is marked [Glue].  Every
    decision is taken on the bytes alone, as in the functions above; only
    the slicing and the writing are done on marked bytes. *)
Inductive origin : Type := Input | Tag | Entity | Glue.

Definition cell : Type := (ascii * origin)%type.

Definition erase (m : list cell) : list ascii := map fst m.
Definition mark (o : origin) (s : list ascii) : list cell :=
  map (fun c => (c, o)) s.

Lemma erase_app (m n : list cell) : erase (m ++ n) = erase m ++ erase n.
Proof. apply map_app. Qed.

Lemma erase_mark (o : origin) (s : list ascii) : erase (mark o s) = s.
Proof.
  unfold erase, mark. rewrite map_map. simpl. apply map_id.
Qed.

Lemma erase_firstn (n : nat) (m : list cell) :
  erase (firstn n m) = firstn n (erase m).
Proof. unfold erase. now rewrite firstn_map. Qed.

Lemma erase_skipn (n : nat) (m : list cell) :
  erase (skipn n m) = skipn n (erase m).
Proof. unfold erase. now rewrite skipn_map. Qed.

Module Marked.

Definition TrimSpace (m : list cell) : list cell :=
  skipn (strings.trimStart (erase m)) (firstn (strings.trimStop (erase m)) m).

Definition TrimPrefix (m : list cell) (prefix : list ascii) : list cell :=
  if strings.HasPrefix (erase m) prefix then skipn (length prefix) m else m.

Definition HTMLEscapeString (m : list cell) : list cell :=
  flat_map (fun c => match template.escaped (fst c) with
                     | Some e => mark Entity e
                     | None => [c]
                     end) m.

Record state : Type := mkState {
  sb : list cell;
  inCodeBlock : bool;
  inList : bool;
  paragraph : list (list cell)
}.

Definition initial : state := mkState [] false false [].

Definition WriteCells (st : state) (m : list cell) : state :=
  mkState (sb st ++ m) (inCodeBlock st) (inList st) (paragraph st).

Definition WriteString (st : state) (s : list ascii) : state :=
  WriteCells st (mark Tag s).

Definition setInCodeBlock (st : state) (b : bool) : state :=
  mkState (sb st) b (inList st) (paragraph st).

Definition setInList (st : state) (b : bool) : state :=
  mkState (sb st) (inCodeBlock st) b (paragraph st).

Definition setParagraph (st : state) (p : list (list cell)) : state :=
  mkState (sb st) (inCodeBlock st) (inList st) p.

Definition flushParagraph (st : state) : state :=
  match paragraph st with
  | [] => st
  | _ :: _ =>
      let text := strings.Join (paragraph st) (mark Glue " ") in
      let st := WriteString st "<p>" in
      let st := WriteCells st (HTMLEscapeString text) in
      let st := WriteString st ("</p>" ++ [LF]) in
      setParagraph st []
  end.

Definition closeList (st : state) : state :=
  if inList st then setInList (WriteString st ("</ul>" ++ [LF])) false else st.

Definition writeHeader (st : state) (trimmed : list cell) (prefix : list ascii)
  : state :=
  let st := closeList (flushParagraph st) in
  let st := WriteString st "<h2>" in
  let st := WriteCells st (HTMLEscapeString (TrimPrefix trimmed prefix)) in
  WriteString st ("</h2>" ++ [LF]).

Definition processLine (st : state) (line : list cell) : state :=
  let trimmed := TrimSpace line in
  let st :=
    if strings.HasPrefix (erase line) "    " && negb (inCodeBlock st) then
      let st := closeList (flushParagraph st) in
      setInCodeBlock (WriteString st "<pre><code>") true
    else st in
  if inCodeBlock st && strings.HasPrefix (erase line) "    " then
    let st := WriteCells st (HTMLEscapeString (TrimPrefix line "    ")) in
    WriteString st [LF]
  else
    let st :=
      if inCodeBlock st
      then setInCodeBlock (WriteString st ("</code></pre>" ++ [LF])) false
      else st in
    if eqs (erase trimmed) [] then closeList (flushParagraph st)
    else if strings.HasPrefix (erase trimmed) "## "
    then writeHeader st trimmed "## "
    else if strings.HasPrefix (erase trimmed) "# "
    then writeHeader st trimmed "# "
    else if strings.HasPrefix (erase trimmed) "- " then
      let st := flushParagraph st in
      let st :=
        if negb (inList st)
        then setInList (WriteString st ("<ul>" ++ [LF])) true
        else st in
      let st := WriteString st "<li>" in
      let st := WriteCells st (HTMLEscapeString (TrimPrefix trimmed "- ")) in
      WriteString st ("</li>" ++ [LF])
    else setParagraph st (paragraph st ++ [trimmed]).

Definition finish (st : state) : state :=
  let st :=
    if inCodeBlock st then WriteString st ("</code></pre>" ++ [LF]) else st in
  let st := if inList st then WriteString st ("</ul>" ++ [LF]) else st in
  flushParagraph st.

Definition renderBlocks (content : list cell) : list cell :=
  sb (finish (fold_left processLine
                (strings.SplitBy (fun c => Ascii.eqb LF (fst c)) content)
                initial)).

Definition pairStep (delim open close : list ascii) (m : list cell)
  : option (list cell) :=
  match strings.Index (erase m) delim with
  | None => None
  | Some start =>
      match strings.Index (skipn (start + length delim) (erase m)) delim with
      | None => None
      | Some e =>
          let end_ := e + (start + length delim) in
          Some (firstn start m ++ mark Tag open
                  ++ skipn (start + length delim) (firstn end_ m)
                  ++ mark Tag close
                  ++ skipn (end_ + length delim) m)
      end
  end.

Definition boldStep : list cell -> option (list cell) :=
  pairStep "**" "<strong>" "</strong>".

Definition codeStep : list cell -> option (list cell) :=
  pairStep "`" "<code>" "</code>".

(** A turn on marked bytes is the turn on the bytes. *)
Lemma pairStep_erase (delim open close : list ascii) (m : list cell) :
  option_map erase (pairStep delim open close m)
  = srv.pairStep delim open close (erase m).
Proof.
  unfold pairStep, srv.pairStep.
  destruct (strings.Index (erase m) delim) as [start|]; [|reflexivity].
  destruct (strings.Index _ delim) as [e|]; [|reflexivity].
  simpl. now rewrite !erase_app, !erase_mark, !erase_skipn, !erase_firstn.
Qed.

Lemma boldStep_erase (m m' : list cell) :
  boldStep m = Some m' -> srv.boldStep (erase m) = Some (erase m').
Proof.
  intros H. unfold srv.boldStep. rewrite <- pairStep_erase.
  unfold boldStep in H. now rewrite H.
Qed.

Lemma codeStep_erase (m m' : list cell) :
  codeStep m = Some m' -> srv.codeStep (erase m) = Some (erase m').
Proof.
  intros H. unfold srv.codeStep. rewrite <- pairStep_erase.
  unfold codeStep in H. now rewrite H.
Qed.

Equations? boldLoop (m : list cell) : list cell
  by wf (countByte "*" (erase m)) lt :=
  boldLoop m with inspect (boldStep m) := {
    | exist _ (Some m') _ => boldLoop m';
    | exist _ None _ => m }.
Proof.
  apply boldStep_erase in e.
  pose proof (srv.pairStep_countByte "*" _ _ _ _ _ e) as H.
  change (countByte "*" "**") with 2 in H.
  change (countByte "*" "<strong>") with 0 in H.
  change (countByte "*" "</strong>") with 0 in H.
  lia.
Qed.

Equations? codeLoop (m : list cell) : list cell
  by wf (countByte "`" (erase m)) lt :=
  codeLoop m with inspect (codeStep m) := {
    | exist _ (Some m') _ => codeLoop m';
    | exist _ None _ => m }.
Proof.
  apply codeStep_erase in e.
  pose proof (srv.pairStep_countByte "`" _ _ _ _ _ e) as H.
  change (countByte "`" "`") with 1 in H.
  change (countByte "`" "<code>") with 0 in H.
  change (countByte "`" "</code>") with 0 in H.
  lia.
Qed.

Definition processInlineFormatting (m : list cell) : list cell :=
  codeLoop (boldLoop m).

Definition renderContent (content : list ascii) : list cell :=
  processInlineFormatting (renderBlocks (mark Input content)).

End Marked.

(** * The vocabulary of the properties *)

(** [idx] is the place of the last byte [c] of [s]. *)
Definition lastAt (c : ascii) (s : list ascii) (idx : nat) : Prop :=
  nth_error s idx = Some c /\ forall j, idx < j -> nth_error s j <> Some c.

(** What [flushParagraph] writes for the open paragraph [p]. *)
Definition paragraphHTML (p : list (list ascii)) : list ascii :=
  match p with
  | [] => []
  | _ :: _ =>
      "<p>" ++ template.HTMLEscapeString (strings.Join p " ") ++ "</p>" ++ [LF]
  end.

(** What [closeList] writes. *)
Definition listEndHTML (open : bool) : list ascii :=
  if open then "</ul>" ++ [LF] else [].

(** The lines that close an open list: a line indented by four spaces, a
    blank line, a header line. *)
Definition closesList (line : list ascii) : bool :=
  let trimmed := strings.TrimSpace line in
  strings.HasPrefix line "    " || eqs trimmed []
  || strings.HasPrefix trimmed "## " || strings.HasPrefix trimmed "# ".

(** [p] is inert for the delimiter [delim]: put in front of any string, it
    neither holds nor completes a delimiter, so the first delimiter is the
    one of the string. *)
Definition inert (delim p : list ascii) : Prop :=
  forall r, strings.Index (p ++ r) delim
            = option_map (Nat.add (length p)) (strings.Index r delim).

(** The state of the marked renderer without the marks. *)
Definition eraseState (st : Marked.state) : srv.state :=
  srv.mkState (erase (Marked.sb st)) (Marked.inCodeBlock st)
    (Marked.inList st) (map erase (Marked.paragraph st)).

(** What a marked byte of the output may be: a byte of a tag is not [&]
    and not a double quote; a byte of an entity is not [<], [>] or a double
    quote; a byte copied from the input, or put by [Join], is none of the
    four. *)
Definition safeb (c : cell) : bool :=
  let a := fst c in
  match snd c with
  | Tag => negb (Ascii.eqb a "&") && negb (Ascii.eqb a DQUOTE)
  | Entity =>
      negb (Ascii.eqb a "<") && negb (Ascii.eqb a ">")
      && negb (Ascii.eqb a DQUOTE)
  | Input | Glue =>
      negb (Ascii.eqb a "<") && negb (Ascii.eqb a ">")
      && negb (Ascii.eqb a "&") && negb (Ascii.eqb a DQUOTE)
  end.

Definition safe (m : list cell) : Prop := forallb safeb m = true.

(** The same, as the specification says it: a [<] or [>] of the output
    belongs to a tag, a [&] starts an entity, and there is no double quote. *)
Definition escapedOrTag (c : cell) : Prop :=
  (fst c = "<"%char \/ fst c = ">"%char -> snd c = Tag) /\
  (fst c = "&"%char -> snd c = Entity) /\
  fst c <> DQUOTE.

(** * More of the code: definitions

    What follows models the code that the properties above do not reach, and
    the vocabulary of its properties. *)

(** The state [st] with [p] written to the builder before everything
    else. *)
Definition prepend (p : list ascii) (st : srv.state) : srv.state :=
  srv.mkState (p ++ srv.sb st) (srv.inCodeBlock st) (srv.inList st)
    (srv.paragraph st).

(** A byte that is neither a quote character nor NUL, and the strings of
    such bytes. *)
Definition quoteFreeb (c : ascii) : bool :=
  negb (Ascii.eqb c "'") && negb (Ascii.eqb c DQUOTE) && negb (Ascii.eqb c "000").

Definition quoteFree (s : list ascii) : Prop := forallb quoteFreeb s = true.

(** ** More of package [strings], and the two regular expressions of
    [generateSlug] *)
Module stringsMore.

Definition isASCII (c : ascii) : bool := (N_of_ascii c <? 128)%N.

Definition isUpper (c : ascii) : bool :=
  ((65 <=? N_of_ascii c) && (N_of_ascii c <=? 90))%N.

(** [c += 'a' - 'A'] for an upper-case letter. *)
Definition lowerByte (c : ascii) : ascii :=
  if isUpper c then ascii_of_N (N_of_ascii c + 32) else c.

(** [func ToLower(s string) string]: a string of ASCII bytes is lowered
    byte by byte; for any other string the source returns
    [Map(unicode.ToLower, s)], which rests on the Unicode case tables and is
    the parameter [mapToLower] here. *)
Definition ToLower (mapToLower : list ascii -> list ascii) (s : list ascii)
  : list ascii :=
  if forallb isASCII s then map lowerByte s else mapToLower s.

(** [func ReplaceAll(s, old, new string) string] for one-byte [old] and
    [new] (the source replaces [" "] by ["-"]). *)
Definition ReplaceAll (s : list ascii) (old new : ascii) : list ascii :=
  map (fun c => if Ascii.eqb c old then new else c) s.

(** [strings.TrimLeft] for a cutset of one ASCII byte. *)
Fixpoint TrimLeft (s : list ascii) (c : ascii) : list ascii :=
  match s with
  | a :: t => if Ascii.eqb a c then TrimLeft t c else s
  | [] => []
  end.

(** [func Trim(s, cutset string) string] for a cutset of one ASCII byte (the
    source trims ["-"]): the bytes equal to it are taken from both ends. *)
Definition Trim (s : list ascii) (c : ascii) : list ascii :=
  rev (TrimLeft (rev (TrimLeft s c)) c).

End stringsMore.

Module regexp.

(** A byte of the class [[a-z0-9-]]. *)
Definition isSlugByte (c : ascii) : bool :=
  let n := N_of_ascii c in
  ((97 <=? n) && (n <=? 122) || (48 <=? n) && (n <=? 57) || (n =? 45))%N.

(** [regexp.MustCompile(`[^a-z0-9-]`).ReplaceAllString(s, "")].  The
    expression matches one rune at a time: every rune that is not in the
    class.  A byte below 128 is a rune of its own wherever it stands; a byte
    from 128 on belongs to a rune that is not in the class (a rune of several
    bytes, or the replacement rune that a byte of invalid UTF-8 is read as).
    So what is left are the bytes of the class. *)
Definition removeNonSlug (s : list ascii) : list ascii := filter isSlugByte s.

(** [regexp.MustCompile(`-+`).ReplaceAllString(s, "-")]: every run of
    hyphens becomes one hyphen; a hyphen followed by a hyphen is dropped. *)
Fixpoint squeezeHyphens (s : list ascii) : list ascii :=
  match s with
  | [] => []
  | a :: t =>
      if Ascii.eqb a "-" && strings.HasPrefix t "-" then squeezeHyphens t
      else a :: squeezeHyphens t
  end.

End regexp.

(** ** Package [main]: the command that posts a Wikipedia summary *)
Module cmd.

(** [func generateSlug(title string) string]. *)
Definition generateSlug (mapToLower : list ascii -> list ascii)
  (title : list ascii) : list ascii :=
  (* Convert to lowercase *)
  let slug := stringsMore.ToLower mapToLower title in
  (* Replace spaces with hyphens *)
  let slug := stringsMore.ReplaceAll slug " " "-" in
  (* Remove non-alphanumeric characters except hyphens *)
  let slug := regexp.removeNonSlug slug in
  (* Remove multiple consecutive hyphens *)
  let slug := regexp.squeezeHyphens slug in
  (* Trim hyphens from ends *)
  let slug := stringsMore.Trim slug "-" in
  (* Limit length *)
  if Nat.ltb 50 (length slug) then firstn 50 slug else slug.

(** The fields of [WikiSummary] that [createPost] reads; [Page] is
    [ContentURLs.Desktop.Page]. *)
Record WikiSummary : Type := mkWikiSummary {
  Title : list ascii;
  Extract : list ascii;
  Description : list ascii;
  Page : list ascii
}.

(** [dbgen.CreatePostParams]. *)
Record CreatePostParams : Type := mkCreatePostParams {
  Slug : list ascii;
  PostTitle : list ascii;
  Content : list ascii;
  Published : Z
}.

(** The content that [createPost] builds; [fmt.Sprintf] with [%s] puts its
    string argument in place. *)
Definition postContent (summary : WikiSummary) : list ascii :=
  let content :=
    "Today's random Wikipedia discovery: **" ++ Title summary ++ "**"
      ++ [LF; LF] in
  let content :=
    if negb (eqs (Description summary) [])
    then content ++ "*" ++ Description summary ++ "*" ++ [LF; LF]
    else content in
  let content := content ++ Extract summary in
  let content := content ++ [LF; LF] in
  content ++ "Read more on Wikipedia: " ++ Page summary.

(** [func createPost(wdb *sql.DB, summary *WikiSummary) error], up to the
    call of [q.CreatePost]: the parameters it is called with.  [dateStr] is
    [time.Now().Format("2006-01-02")]. *)
Definition createPost (mapToLower : list ascii -> list ascii)
  (dateStr : list ascii) (summary : WikiSummary) : CreatePostParams :=
  let slug := generateSlug mapToLower (Title summary) in
  let slug := "wiki-" ++ dateStr ++ "-" ++ slug in
  mkCreatePostParams slug ("Wiki Discovery: " ++ Title summary)
    (postContent summary) 1.

End cmd.

(** ** The kinds of lines that [renderContent] tells apart *)

(** A line as [strings.Split(content, "\n")] gives it holds no line feed. *)
Definition oneLine (line : list ascii) : bool := Nat.eqb (countByte LF line) 0.

(** A line of a paragraph: not indented by four spaces, not blank, neither
    header nor list item. *)
Definition textLine (line : list ascii) : bool :=
  let trimmed := strings.TrimSpace line in
  oneLine line && negb (strings.HasPrefix line "    ")
  && negb (eqs trimmed []) && negb (strings.HasPrefix trimmed "## ")
  && negb (strings.HasPrefix trimmed "# ")
  && negb (strings.HasPrefix trimmed "- ").

(** A list item, a line of a code block, a header. *)
Definition itemLine (line : list ascii) : bool :=
  oneLine line && negb (strings.HasPrefix line "    ")
  && strings.HasPrefix (strings.TrimSpace line) "- ".

Definition codeLine (line : list ascii) : bool :=
  oneLine line && strings.HasPrefix line "    ".

Definition headerLine (line : list ascii) : bool :=
  let trimmed := strings.TrimSpace line in
  oneLine line && negb (strings.HasPrefix line "    ")
  && (strings.HasPrefix trimmed "## " || strings.HasPrefix trimmed "# ").

(** The text of a header: what follows [## ], or else what follows [# ]. *)
Definition headerText (line : list ascii) : list ascii :=
  let trimmed := strings.TrimSpace line in
  if strings.HasPrefix trimmed "## " then strings.TrimPrefix trimmed "## "
  else strings.TrimPrefix trimmed "# ".

(** What is written for one list item and for one line of a code block. *)
Definition itemHTML (line : list ascii) : list ascii :=
  "<li>"
    ++ template.HTMLEscapeString
         (strings.TrimPrefix (strings.TrimSpace line) "- ")
    ++ "</li>" ++ [LF].

Definition codeLineHTML (line : list ascii) : list ascii :=
  template.HTMLEscapeString (strings.TrimPrefix line "    ") ++ [LF].

(** ** Package [srv]: the admin pages *)
Module admin.

(** What a handler does with a request: it calls [next(w, r)], it calls
    [http.Redirect(w, r, url, code)], or it calls [http.Error(w, msg, code)]. *)
Inductive response : Type :=
| Next
| Redirect (url : list ascii) (code : Z)
| Error (msg : list ascii) (code : Z).

Definition StatusFound : Z := 302.
Definition StatusForbidden : Z := 403.

Section RequireAdmin.

(** [strings.EqualFold], and the package variable [AdminEmails] (empty in
    the source, to be filled in by who installs the program). *)
Variable EqualFold : list ascii -> list ascii -> bool.
Variable AdminEmails : list (list ascii).

(** [for _, admin := range AdminEmails { if strings.EqualFold(email, admin)
    { next(w, r); return } }]: [true] when the loop returns. *)
Fixpoint inAdminEmails (email : list ascii) (admins : list (list ascii)) : bool :=
  match admins with
  | [] => false
  | admin :: rest =>
      if EqualFold email admin then true else inAdminEmails email rest
  end.

(** [func (s *Server) requireAdmin(next http.HandlerFunc) http.HandlerFunc]:
    the handler it returns.  [devMode] is [os.Getenv("DEV_MODE")], [header]
    is [r.Header.Get("X-ExeDev-Email")] and [path] is [r.URL.Path]. *)
Definition requireAdmin (devMode header path : list ascii) : response :=
  (* Skip auth in dev mode *)
  if eqs devMode "1" then Next
  else
    let email := strings.TrimSpace header in
    (* If no admin emails configured, allow any authenticated user *)
    if Nat.eqb (length AdminEmails) 0 then
      if eqs email [] then
        Redirect ("/__exe.dev/login?redirect=" ++ path) StatusFound
      else Next
    (* Check if email is in admin list *)
    else if inAdminEmails email AdminEmails then Next
    else if eqs email [] then
      Redirect ("/__exe.dev/login?redirect=" ++ path) StatusFound
    else Error "Forbidden" StatusForbidden.

End RequireAdmin.

(** What [HandleAdminCreate] does with a parsed form. *)
Inductive created : Type :=
| FormError (slug title content error : list ascii)
| CreatePost (arg : cmd.CreatePostParams).

(** [func (s *Server) HandleAdminCreate(w, r)] from the form values on, up
    to the call of [q.CreatePost]: the four arguments are
    [r.FormValue("slug")], [r.FormValue("title")], [r.FormValue("content")]
    and [r.FormValue("published")]. *)
Definition HandleAdminCreate (slugValue titleValue contentValue publishedValue
  : list ascii) : created :=
  let slug := strings.TrimSpace slugValue in
  let title := strings.TrimSpace titleValue in
  let content := contentValue in
  let published := eqs publishedValue "on" in
  if eqs slug [] || eqs title [] then
    FormError slug title content "Slug and title are required"
  else
    let pub := if published then 1%Z else 0%Z in
    CreatePost (cmd.mkCreatePostParams slug title content pub).

End admin.

(** A slug as [generateSlug] is meant to make it: lower-case letters, digits
    and single hyphens, no hyphen at either end, at most 50 bytes. *)
Definition slugShaped (s : list ascii) : Prop :=
  forallb regexp.isSlugByte s = true /\
  Contains s "--" = false /\
  strings.HasPrefix s "-" = false /\
  strings.HasPrefix (rev s) "-" = false /\
  length s <= 50.

(** The slug before the cut to 50 bytes. *)
Definition uncutSlug (mapToLower : list ascii -> list ascii) (title : list ascii)
  : list ascii :=
  stringsMore.Trim
    (regexp.squeezeHyphens
       (regexp.removeNonSlug
          (stringsMore.ReplaceAll (stringsMore.ToLower mapToLower title) " " "-")))
    "-".

(** * The functions on small inputs *)

Example TrimSpace_ascii :
  strings.TrimSpace ("  a b " ++ [LF]) = list_ascii_of_string "a b".
Proof. reflexivity. Qed.

(** U+00A0 at the front, U+2003 at the end; U+200B is not white space. *)
Example TrimSpace_unicode :
  strings.TrimSpace (["194"; "160"]%char ++ "a" ++ ["226"; "128"; "131"]%char)
  = list_ascii_of_string "a"
  /\ strings.TrimSpace (["226"; "128"; "139"]%char ++ "a")
     = ["226"; "128"; "139"]%char ++ "a".
Proof. split; reflexivity. Qed.

Example Split_lines :
  strings.Split ("a" ++ [LF] ++ "b" ++ [LF]) LF
  = [list_ascii_of_string "a"; list_ascii_of_string "b"; []]
  /\ strings.Split [] LF = [[]].
Proof. split; reflexivity. Qed.

Example HTMLEscapeString_special :
  template.HTMLEscapeString ("<a href=" ++ [DQUOTE] ++ "x" ++ [DQUOTE] ++ ">&'")
  = list_ascii_of_string "&lt;a href=&#34;x&#34;&gt;&amp;&#39;".
Proof. reflexivity. Qed.

Example excerpt_zero :
  srv.excerpt "abc" 0 = Some (list_ascii_of_string "...")
  /\ srv.excerpt "   " 0 = Some [].
Proof. split; reflexivity. Qed.

Example render_title_bold_code :
  srv.renderContent
    ("# Title" ++ [LF; LF] ++ "Some **bold** and `code`." ++ [LF])
  = "<h2>Title</h2>" ++ [LF]
      ++ "<p>Some <strong>bold</strong> and <code>code</code>.</p>" ++ [LF].
Proof. vm_compute. reflexivity. Qed.

Example render_blank : srv.renderContent [] = [] /\ srv.renderContent "  " = [].
Proof. vm_compute. auto. Qed.

Example format_empty_bold :
  srv.processInlineFormatting "a****b***c"
  = list_ascii_of_string "a<strong></strong>b***c".
Proof. vm_compute. reflexivity. Qed.

Example delimiters_counted_without_overlap :
  delimiters "**" "a****b***c" = 3 /\ delimiters "**" "***" = 1.
Proof. split; reflexivity. Qed.

Example marked_output :
  Marked.renderContent "<*"
  = mark Tag "<p>" ++ mark Entity "&lt;" ++ [("*"%char, Input)]
      ++ mark Tag ("</p>" ++ [LF]).
Proof. vm_compute. reflexivity. Qed.

(** * Properties of [excerpt] *)

(** What [LastIndex] returns for a one-byte [substr]. *)
Lemma LastIndex_byte (s : list ascii) (c : ascii) :
  match strings.LastIndex s [c] with
  | Some i => lastAt c s i
  | None => forall j, nth_error s j <> Some c
  end.
Proof.
  induction s as [|a s IH]; simpl.
  - intros [|j]; discriminate.
  - destruct (strings.LastIndex s [c]) as [i|].
    + destruct IH as [Hi Hlast]. split; [exact Hi|].
      intros [|j] Hj; [lia|]. simpl. apply Hlast. lia.
    + destruct (Ascii.eqb a c) eqn:Hac; simpl.
      * apply Ascii.eqb_eq in Hac; subst a. split; [reflexivity|].
        intros [|j] Hj; [lia|]. simpl. apply IH.
      * apply Ascii.eqb_neq in Hac.
        intros [|j]; simpl; [congruence|apply IH].
Qed.

Lemma LastIndex_lastAt (s : list ascii) (c : ascii) (idx : nat) :
  lastAt c s idx -> strings.LastIndex s [c] = Some idx.
Proof.
  intros [Hidx Hlast]. pose proof (LastIndex_byte s c) as H.
  destruct (strings.LastIndex s [c]) as [i|].
  - destruct H as [Hi Hl]. f_equal.
    destruct (Nat.lt_trichotomy i idx) as [Hlt|[Heq|Hgt]]; [|exact Heq|].
    + exfalso. exact (Hl idx Hlt Hidx).
    + exfalso. exact (Hlast i Hgt Hi).
  - exfalso. exact (H idx Hidx).
Qed.

Lemma sliceTo_ok (s : list ascii) (hi : Z) :
  (0 <= hi <= Z.of_nat (length s))%Z ->
  srv.sliceTo s hi = Some (firstn (Z.to_nat hi) s).
Proof.
  intros H. unfold srv.sliceTo.
  destruct (Z.leb_spec 0 hi); [|lia].
  destruct (Z.leb_spec hi (Z.of_nat (length s))); [|lia].
  reflexivity.
Qed.

(** The two outcomes of [excerpt] for a [maxLen] that is not negative. *)
Lemma excerpt_cases (content : list ascii) (maxLen : Z) :
  (0 <= maxLen)%Z ->
  let trimmed := strings.TrimSpace content in
  ((Z.of_nat (length trimmed) <= maxLen)%Z /\
   srv.excerpt content maxLen = Some trimmed)
  \/
  ((maxLen < Z.of_nat (length trimmed))%Z /\
   exists truncated,
     srv.excerpt content maxLen = Some (truncated ++ "...") /\
     length truncated <= Z.to_nat maxLen /\
     truncated =
       match strings.LastIndex (firstn (Z.to_nat maxLen) trimmed) [" "%char] with
       | Some (S idx) => firstn (S idx) (firstn (Z.to_nat maxLen) trimmed)
       | _ => firstn (Z.to_nat maxLen) trimmed
       end).
Proof.
  intros Hnn trimmed. unfold srv.excerpt. fold trimmed.
  change (list_ascii_of_string " ") with [" "%char].
  destruct (Z.leb_spec (Z.of_nat (length trimmed)) maxLen) as [Hle|Hgt].
  - left. auto.
  - right. split; [exact Hgt|].
    rewrite sliceTo_ok by lia.
    set (slice := firstn (Z.to_nat maxLen) trimmed).
    assert (Hlen : length slice <= Z.to_nat maxLen) by apply firstn_le_length.
    destruct (strings.LastIndex slice [" "%char]) as [[|idx]|]; simpl.
    + exists slice. auto.
    + exists (firstn (S idx) slice). repeat split; auto.
      rewrite length_firstn. lia.
    + exists slice. auto.
Qed.

(** C4, as the code has it: [excerpt] returns a string for every content and
    every [maxLen] that is not negative; for a negative [maxLen] the slice
    [content[:maxLen]] panics, whatever the content. *)
Theorem excerpt_returns_unless_negative (content : list ascii) (maxLen : Z) :
  ((0 <= maxLen)%Z -> exists r, srv.excerpt content maxLen = Some r) /\
  ((maxLen < 0)%Z -> srv.excerpt content maxLen = None).
Proof.
  split.
  - intros H. destruct (excerpt_cases content maxLen H) as [[_ E]|[_ (t & E & _)]];
      eauto.
  - intros H. unfold srv.excerpt, srv.sliceTo.
    destruct (Z.leb_spec (Z.of_nat (length (strings.TrimSpace content))) maxLen);
      [lia|].
    destruct (Z.leb_spec 0 maxLen); [lia|]. reflexivity.
Qed.

Lemma excerpt_returns_unless_negative_witness :
  exists r, srv.excerpt "abc" 0 = Some r.
Proof.
  apply (proj1 (excerpt_returns_unless_negative "abc" 0)). lia.
Defined.

(** C4 as stated fails: [excerpt("abc", -1)] panics. *)
Lemma excerpt_negative_maxLen_panics : srv.excerpt "abc" (-1) = None.
Proof. reflexivity. Qed.

(** C8: for a [maxLen] that is not negative, [excerpt] returns the trimmed
    content unchanged when its length is at most [maxLen]; otherwise it
    takes the first [maxLen] bytes, cuts them at their last space when that
    space is at a position greater than 0, keeps them whole when there is no
    such space, and appends ["..."].  The two examples of the
    specification. *)
Theorem excerpt_word_boundary :
  (forall (content : list ascii) (maxLen : Z),
      (0 <= maxLen)%Z ->
      let trimmed := strings.TrimSpace content in
      let slice := firstn (Z.to_nat maxLen) trimmed in
      ((Z.of_nat (length trimmed) <= maxLen)%Z ->
       srv.excerpt content maxLen = Some trimmed) /\
      ((maxLen < Z.of_nat (length trimmed))%Z ->
       (forall idx, 0 < idx -> lastAt " " slice idx ->
                    srv.excerpt content maxLen = Some (firstn idx slice ++ "...")) /\
       ((forall j, 0 < j -> nth_error slice j <> Some " "%char) ->
        srv.excerpt content maxLen = Some (slice ++ "..."))))
  /\ srv.excerpt "The quick brown fox jumps" 10
     = Some (list_ascii_of_string "The quick...")
  /\ srv.excerpt "short" 10 = Some (list_ascii_of_string "short").
Proof.
  split; [|split; reflexivity].
  intros content maxLen Hnn trimmed slice.
  destruct (excerpt_cases content maxLen Hnn) as [[Hle E]|[Hgt (t & E & _ & Ht)]];
    fold trimmed in Hle || fold trimmed in Hgt.
  - split; [intros _; exact E | intros H; lia].
  - fold trimmed slice in Ht. split; [intros H; lia|]. intros _. split.
    + intros idx Hpos Hlast.
      rewrite (LastIndex_lastAt _ _ _ Hlast) in Ht.
      destruct idx as [|idx]; [lia|]. now rewrite E, Ht.
    + intros Hnone. pose proof (LastIndex_byte slice " ") as HL.
      destruct (strings.LastIndex slice [" "%char]) as [[|idx]|];
        try (now rewrite E, Ht).
      exfalso. destruct HL as [Hi _]. apply (Hnone (S idx)); [lia|exact Hi].
Qed.

Lemma excerpt_word_boundary_witness :
  srv.excerpt "The quick brown fox jumps" 10
  = Some (firstn 9 (firstn 10 (strings.TrimSpace "The quick brown fox jumps"))
            ++ "...").
Proof.
  refine (proj1 (proj2 (proj1 excerpt_word_boundary
                          "The quick brown fox jumps" 10%Z _) _) 9 _ _).
  - lia.
  - vm_compute. reflexivity.
  - lia.
  - split; [reflexivity|].
    intros j Hj.
    assert (H : nth_error
                  (firstn (Z.to_nat 10)
                     (strings.TrimSpace "The quick brown fox jumps")) j
                = None) by (apply nth_error_None; vm_compute; lia).
    rewrite H. discriminate.
Defined.

(** C10: for a [maxLen] that is not negative, [excerpt] returns a string of
    at most [maxLen + 3] bytes. *)
Theorem excerpt_length_bound (content : list ascii) (maxLen : Z) :
  (0 <= maxLen)%Z ->
  exists r, srv.excerpt content maxLen = Some r /\
            (Z.of_nat (length r) <= maxLen + 3)%Z.
Proof.
  intros H.
  destruct (excerpt_cases content maxLen H) as [[Hle E]|[_ (t & E & Hlen & _)]].
  - eexists; split; [exact E|]. lia.
  - eexists; split; [exact E|]. rewrite length_app. simpl. lia.
Qed.

Lemma excerpt_length_bound_witness :
  exists r, srv.excerpt "The quick brown fox jumps" 10 = Some r /\
            (Z.of_nat (length r) <= 10 + 3)%Z.
Proof.
  apply (excerpt_length_bound "The quick brown fox jumps" 10). lia.
Defined.

(** * Properties of the line loop *)

Lemma flushParagraph_spec (st : srv.state) :
  srv.flushParagraph st
  = srv.mkState (srv.sb st ++ paragraphHTML (srv.paragraph st))
      (srv.inCodeBlock st) (srv.inList st) [].
Proof.
  destruct st as [b c l [|x p]]; unfold srv.flushParagraph; simpl.
  - now rewrite app_nil_r.
  - unfold srv.setParagraph, srv.WriteString; simpl.
    now rewrite <- !app_assoc.
Qed.

Lemma closeList_spec (st : srv.state) :
  srv.closeList st
  = srv.mkState (srv.sb st ++ listEndHTML (srv.inList st))
      (srv.inCodeBlock st) false (srv.paragraph st).
Proof.
  destruct st as [b c [|] p]; unfold srv.closeList; simpl.
  - reflexivity.
  - now rewrite app_nil_r.
Qed.

(** The open paragraph is flushed and the open list closed. *)
Lemma flush_close_spec (st : srv.state) :
  srv.closeList (srv.flushParagraph st)
  = srv.mkState
      (srv.sb st ++ paragraphHTML (srv.paragraph st) ++ listEndHTML (srv.inList st))
      (srv.inCodeBlock st) false [].
Proof.
  rewrite closeList_spec, flushParagraph_spec. simpl. now rewrite <- app_assoc.
Qed.

Lemma HasPrefix_indent (rest : list ascii) :
  strings.HasPrefix ("    " ++ rest) "    " = true.
Proof. reflexivity. Qed.

Lemma TrimPrefix_indent (rest : list ascii) :
  strings.TrimPrefix ("    " ++ rest) "    " = rest.
Proof. reflexivity. Qed.

(** C7: outside a code block, a line that starts with four spaces flushes
    the open paragraph, closes the open list and starts a code block whose
    first content line is the line without the four spaces; the example of
    the specification. *)
Theorem indented_line_opens_code_block :
  (forall (st : srv.state) (rest : list ascii),
      srv.inCodeBlock st = false ->
      srv.processLine st ("    " ++ rest)
      = srv.mkState
          (srv.sb st ++ paragraphHTML (srv.paragraph st)
             ++ listEndHTML (srv.inList st)
             ++ "<pre><code>" ++ template.HTMLEscapeString rest ++ [LF])
          true false [])
  /\ srv.renderContent ("hello" ++ [LF] ++ "    world" ++ [LF])
     = "<p>hello</p>" ++ [LF] ++ "<pre><code>world" ++ [LF]
         ++ "</code></pre>" ++ [LF].
Proof.
  split; [|vm_compute; reflexivity].
  intros st rest Hc. unfold srv.processLine.
  rewrite HasPrefix_indent, TrimPrefix_indent, Hc. cbn [andb negb].
  rewrite flush_close_spec. cbn.
  unfold srv.WriteString; cbn. f_equal.
  now rewrite <- !app_assoc.
Qed.

Lemma indented_line_opens_code_block_witness :
  srv.processLine (srv.mkState "<ul>" false true ["hello" : list ascii])
    ("    " ++ "world")
  = srv.mkState
      ("<ul>" ++ paragraphHTML ["hello" : list ascii] ++ listEndHTML true
         ++ "<pre><code>" ++ template.HTMLEscapeString "world" ++ [LF])
      true false [].
Proof.
  exact (proj1 indented_line_opens_code_block
           (srv.mkState "<ul>" false true ["hello" : list ascii]) "world"
           eq_refl).
Defined.

(** C6, as the code has it: the output for the example of the specification
    has a line feed after [<ul>], after every [</li>] and after [</ul>], and
    [</ul>] comes before [<p>]; outside a code block, a blank line, a header
    line or a line indented by four spaces closes an open list before
    anything else is written for that line. *)
Theorem list_closed_by_blank_header_or_code :
  srv.renderContent
    ("- one" ++ [LF] ++ "- two" ++ [LF] ++ [LF] ++ "After." ++ [LF])
  = "<ul>" ++ [LF] ++ "<li>one</li>" ++ [LF] ++ "<li>two</li>" ++ [LF]
      ++ "</ul>" ++ [LF] ++ "<p>After.</p>" ++ [LF]
  /\ (forall (st : srv.state) (line : list ascii),
         srv.inList st = true ->
         srv.inCodeBlock st = false ->
         closesList line = true ->
         srv.inList (srv.processLine st line) = false /\
         exists tail,
           srv.sb (srv.processLine st line)
           = srv.sb st ++ paragraphHTML (srv.paragraph st)
               ++ ("</ul>" ++ [LF]) ++ tail).
Proof.
  split; [vm_compute; reflexivity|].
  intros st line Hl Hc Hline. unfold closesList in Hline.
  unfold srv.processLine. rewrite Hc. cbn [negb].
  destruct (strings.HasPrefix line "    ") eqn:Hp; cbn [andb].
  - rewrite flush_close_spec, Hl. cbn.
    split; [reflexivity|].
    eexists. rewrite <- !app_assoc. cbn. reflexivity.
  - rewrite Hc. cbn [orb] in Hline.
    destruct (eqs (strings.TrimSpace line) []) eqn:Hb.
    + rewrite flush_close_spec, Hl. cbn. split; [reflexivity|].
      exists []. reflexivity.
    + cbn [orb] in Hline. unfold srv.writeHeader.
      destruct (strings.HasPrefix (strings.TrimSpace line) "## ") eqn:H2.
      * rewrite flush_close_spec, Hl. cbn. split; [reflexivity|].
        eexists. rewrite <- !app_assoc. cbn. reflexivity.
      * cbn [orb] in Hline. rewrite Hline.
        rewrite flush_close_spec, Hl. cbn. split; [reflexivity|].
        eexists. rewrite <- !app_assoc. cbn. reflexivity.
Qed.

Lemma list_closed_by_blank_header_or_code_witness :
  srv.inList (srv.processLine (srv.mkState "<ul>" false true []) "# t") = false /\
  exists tail,
    srv.sb (srv.processLine (srv.mkState "<ul>" false true []) "# t")
    = "<ul>" ++ paragraphHTML [] ++ ("</ul>" ++ [LF]) ++ tail.
Proof.
  exact (proj2 list_closed_by_blank_header_or_code
           (srv.mkState "<ul>" false true []) "# t" eq_refl eq_refl eq_refl).
Defined.

(** C6 as stated fails twice.  The output for its example does not contain
    [<ul><li>one</li><li>two</li></ul>]: the code puts line feeds between the
    tags.  And an ordinary text line does not close an open list: the list
    stays open, the paragraph is written inside it when the next item comes,
    and the item goes on in the same [<ul>]. *)
Lemma list_not_closed_by_text_line :
  Contains
    (srv.renderContent
       ("- one" ++ [LF] ++ "- two" ++ [LF] ++ [LF] ++ "After." ++ [LF]))
    "<ul><li>one</li><li>two</li></ul>" = false
  /\ srv.renderContent ("- one" ++ [LF] ++ "After" ++ [LF] ++ "- two" ++ [LF])
     = "<ul>" ++ [LF] ++ "<li>one</li>" ++ [LF] ++ "<p>After</p>" ++ [LF]
         ++ "<li>two</li>" ++ [LF] ++ "</ul>" ++ [LF]
  /\ srv.inList
       (srv.processLine (srv.mkState ("<ul>" ++ [LF]) false true []) "After")
     = true.
Proof. vm_compute. auto. Qed.

(** C2, as the code has it: inside a code block a line that starts with four
    spaces is written escaped, without the four spaces and otherwise byte for
    byte (no trimming), and nothing else changes; the inline formatting
    that follows runs over the whole output, code blocks included, and
    rewrites the delimiter pairs it finds there. *)
Theorem code_block_line_written_escaped :
  (forall (st : srv.state) (rest : list ascii),
      srv.inCodeBlock st = true ->
      srv.processLine st ("    " ++ rest)
      = srv.mkState (srv.sb st ++ template.HTMLEscapeString rest ++ [LF])
          true (srv.inList st) (srv.paragraph st))
  /\ srv.renderBlocks ("    a  **b** <c>" ++ [LF])
     = "<pre><code>a  **b** &lt;c&gt;" ++ [LF] ++ "</code></pre>" ++ [LF]
  /\ srv.renderContent ("    a  **b** <c>" ++ [LF])
     = "<pre><code>a  <strong>b</strong> &lt;c&gt;" ++ [LF]
         ++ "</code></pre>" ++ [LF].
Proof.
  split; [|vm_compute; auto].
  intros st rest Hc. unfold srv.processLine.
  rewrite HasPrefix_indent, TrimPrefix_indent, Hc. cbn [andb negb].
  rewrite Hc. cbn [andb]. unfold srv.WriteString; cbn.
  now rewrite Hc, <- app_assoc.
Qed.

Lemma code_block_line_written_escaped_witness :
  srv.processLine (srv.mkState "<pre><code>" true false []) ("    " ++ "x  <y>")
  = srv.mkState ("<pre><code>" ++ template.HTMLEscapeString "x  <y>" ++ [LF])
      true false [].
Proof.
  exact (proj1 code_block_line_written_escaped
           (srv.mkState "<pre><code>" true false []) "x  <y>" eq_refl).
Defined.

(** C2 as stated fails: the delimiter pairs inside a code block are
    rewritten into [<strong>] and [<code>] tags. *)
Lemma code_block_content_is_formatted :
  srv.renderContent ("    **x** `y`" ++ [LF])
  = "<pre><code><strong>x</strong> <code>y</code>" ++ [LF]
      ++ "</code></pre>" ++ [LF].
Proof. vm_compute. reflexivity. Qed.

(** * The delimiter-pairing loops *)

Lemma firstn_app_length {A : Type} (a b : list A) (n : nat) :
  firstn (length a + n) (a ++ b) = a ++ firstn n b.
Proof.
  rewrite firstn_app, firstn_all2 by lia. f_equal. f_equal. lia.
Qed.

Lemma skipn_app_length {A : Type} (a b : list A) (n : nat) :
  skipn (length a + n) (a ++ b) = skipn n b.
Proof.
  rewrite skipn_app, skipn_all2 by lia. simpl. f_equal. lia.
Qed.

Lemma option_map_add_0 (o : option nat) : option_map (Nat.add 0) o = o.
Proof. now destruct o. Qed.

Lemma HasPrefix_nil_l (d : list ascii) :
  d <> [] -> strings.HasPrefix [] d = false.
Proof. now destruct d. Qed.

Lemma Index_here (s d : list ascii) :
  strings.HasPrefix s d = true -> strings.Index s d = Some 0.
Proof. destruct s; simpl; intros ->; reflexivity. Qed.

(** A prefix that fits in [u] does not depend on what follows [u]. *)
Lemma HasPrefix_fits (d u v : list ascii) :
  length d <= length u ->
  strings.HasPrefix (u ++ v) d = strings.HasPrefix u d.
Proof.
  revert u; induction d as [|p d IH]; intros [|a u] H; simpl in *;
    try reflexivity; try lia.
  rewrite IH by lia. reflexivity.
Qed.

Lemma HasPrefix_app_l (d u v : list ascii) :
  strings.HasPrefix u d = true -> strings.HasPrefix (u ++ v) d = true.
Proof.
  revert u; induction d as [|p d IH]; intros [|a u] H; simpl in *;
    try reflexivity; try discriminate.
  apply andb_prop in H as [-> H]. simpl. auto.
Qed.

(** A byte that is not in [d] stops every prefix [d] that starts before
    it. *)
Lemma HasPrefix_barrier (d u v w : list ascii) (x : ascii) :
  ~ In x d ->
  strings.HasPrefix (u ++ x :: v) d = true ->
  strings.HasPrefix (u ++ w) d = true.
Proof.
  revert u; induction d as [|p d IH]; intros u Hx H; [reflexivity|].
  destruct u as [|a u]; simpl in *.
  - apply andb_prop in H as [E _]. apply Ascii.eqb_eq in E.
    exfalso. apply Hx. now left.
  - apply andb_prop in H as [-> H]. simpl. apply IH; auto.
Qed.

Section Pairing.

Variables delim open close : list ascii.
Hypothesis delim_nonempty : delim <> [].

Lemma Index_nil : strings.Index [] delim = None.
Proof. simpl. now rewrite HasPrefix_nil_l. Qed.

Lemma Index_cons (a : ascii) (s : list ascii) :
  strings.Index (a :: s) delim
  = if strings.HasPrefix (a :: s) delim then Some 0
    else option_map S (strings.Index s delim).
Proof. reflexivity. Qed.

(** The first delimiter at the end of [a] stays the first one whatever
    follows it. *)
Lemma Index_at_stable (a x y : list ascii) :
  strings.Index (a ++ delim ++ x) delim = Some (length a) ->
  strings.Index (a ++ delim ++ y) delim = Some (length a).
Proof.
  induction a as [|b a IH]; intros H.
  - cbn [app length]. apply Index_here. apply strings.HasPrefix_app.
  - cbn [app length] in *. rewrite Index_cons in *.
    assert (E : forall z, strings.HasPrefix (b :: a ++ delim ++ z) delim
                          = strings.HasPrefix (b :: a ++ delim) delim).
    { intros z. rewrite app_assoc.
      apply (HasPrefix_fits delim (b :: a ++ delim) z).
      simpl. rewrite length_app. lia. }
    rewrite E in *.
    destruct (strings.HasPrefix (b :: a ++ delim) delim); [discriminate|].
    destruct (strings.Index (a ++ delim ++ x) delim) as [i|]; [|discriminate].
    injection H as ->. now rewrite IH.
Qed.

Lemma Index_before_none (a x : list ascii) :
  strings.Index (a ++ x) delim = Some (length a) ->
  strings.Index a delim = None.
Proof.
  induction a as [|b a IH]; intros H; [apply Index_nil|].
  cbn [app length] in H. rewrite Index_cons in *.
  destruct (strings.HasPrefix (b :: a) delim) eqn:Hp.
  - apply (HasPrefix_app_l _ _ x) in Hp. cbn [app] in Hp.
    rewrite Hp in H. discriminate.
  - destruct (strings.HasPrefix (b :: a ++ x) delim); [discriminate|].
    destruct (strings.Index (a ++ x) delim) as [i|]; [|discriminate].
    injection H as ->. now rewrite IH.
Qed.

Lemma inert_app (p q : list ascii) :
  inert delim p -> inert delim q -> inert delim (p ++ q).
Proof.
  intros Hp Hq r. rewrite <- app_assoc, Hp, Hq, length_app.
  destruct (strings.Index r delim); simpl; [f_equal; lia|reflexivity].
Qed.

(** A tag without any byte of the delimiter is inert. *)
Lemma inert_clean (t : list ascii) :
  Forall (fun x => ~ In x delim) t -> inert delim t.
Proof.
  induction 1 as [|x t Hx Ht IH]; intros r.
  - simpl. now rewrite option_map_add_0.
  - cbn [app length]. rewrite Index_cons.
    assert (Hp : strings.HasPrefix (x :: t ++ r) delim = false).
    { destruct delim as [|p d]; [contradiction|]. simpl.
      destruct (Ascii.eqb_spec x p) as [->|_]; [|reflexivity].
      exfalso. apply Hx. now left. }
    rewrite Hp, IH. now destruct (strings.Index r delim).
Qed.

(** What stands before the first delimiter, followed by such a tag, is
    inert. *)
Lemma inert_before (a x t : list ascii) :
  strings.Index (a ++ delim ++ x) delim = Some (length a) ->
  t <> [] ->
  Forall (fun x => ~ In x delim) t ->
  inert delim (a ++ t).
Proof.
  intros H Ht Hclean. induction a as [|b a IH].
  - now apply inert_clean.
  - intros r. cbn [app length] in *. rewrite Index_cons in *.
    destruct (strings.HasPrefix (b :: a ++ delim ++ x) delim) eqn:Hp;
      [discriminate|].
    destruct (strings.Index (a ++ delim ++ x) delim) as [i|] eqn:Hi;
      [|discriminate].
    injection H as ->. specialize (IH eq_refl).
    assert (Hq : strings.HasPrefix (b :: (a ++ t) ++ r) delim = false).
    { destruct (strings.HasPrefix (b :: (a ++ t) ++ r) delim) eqn:Hq;
        [|reflexivity].
      destruct t as [|y t]; [contradiction|].
      rewrite <- app_assoc in Hq. cbn [app] in Hq.
      apply (HasPrefix_barrier delim (b :: a) _ (delim ++ x) y) in Hq.
      - cbn [app] in Hq. congruence.
      - now inversion Hclean. }
    rewrite Hq, IH. now destruct (strings.Index r delim).
Qed.

(** *** The number of delimiters *)

Lemma delim_length_pos : 0 < length delim.
Proof. destruct delim; [contradiction|simpl; lia]. Qed.

Lemma delimitersFrom_fuel (f1 f2 : nat) (s : list ascii) :
  length s <= f1 -> length s <= f2 ->
  delimitersFrom f1 delim s = delimitersFrom f2 delim s.
Proof.
  revert f2 s; induction f1 as [|f1 IH]; intros f2 s H1 H2.
  - destruct s; [|simpl in H1; lia].
    destruct f2; simpl; [reflexivity|]. now rewrite HasPrefix_nil_l.
  - destruct f2 as [|f2].
    + destruct s; [|simpl in H2; lia]. simpl. now rewrite HasPrefix_nil_l.
    + cbn [delimitersFrom].
      destruct (strings.Index s delim) as [i|] eqn:Hi; [|reflexivity].
      f_equal. apply strings.Index_bound in Hi.
      pose proof delim_length_pos.
      apply IH; rewrite length_skipn; lia.
Qed.

Lemma delimiters_unfold (s : list ascii) :
  delimiters delim s
  = match strings.Index s delim with
    | None => 0
    | Some i => S (delimiters delim (skipn (i + length delim) s))
    end.
Proof.
  unfold delimiters. destruct s as [|a s].
  - simpl. now rewrite HasPrefix_nil_l.
  - cbn [length delimitersFrom].
    destruct (strings.Index (a :: s) delim) as [i|] eqn:Hi; [|reflexivity].
    f_equal. apply strings.Index_bound in Hi.
    pose proof delim_length_pos.
    apply delimitersFrom_fuel; [|lia].
    rewrite length_skipn. cbn [length] in Hi |- *. lia.
Qed.

Lemma delimiters_behind (p r : list ascii) :
  inert delim p -> delimiters delim (p ++ r) = delimiters delim r.
Proof.
  intros Hp. rewrite (delimiters_unfold (p ++ r)), (delimiters_unfold r), Hp.
  destruct (strings.Index r delim) as [i|]; [|reflexivity]. cbn [option_map].
  now rewrite <- Nat.add_assoc, skipn_app_length.
Qed.

(** The first delimiter of [a] is the first delimiter of [a ++ w]. *)
Lemma Index_app_l (a w : list ascii) (i : nat) :
  strings.Index a delim = Some i -> strings.Index (a ++ w) delim = Some i.
Proof.
  revert i; induction a as [|b a IH]; intros i H.
  - now rewrite Index_nil in H.
  - pose proof (strings.Index_bound _ _ _ H) as Hb.
    cbn [app]. rewrite Index_cons in *.
    change (b :: a ++ w) with ((b :: a) ++ w).
    destruct (strings.HasPrefix (b :: a) delim) eqn:Hp.
    + now rewrite (HasPrefix_app_l _ _ w Hp).
    + rewrite HasPrefix_fits, Hp by lia.
      destruct (strings.Index a delim) as [j|]; [|discriminate].
      now rewrite (IH j eq_refl).
Qed.

(** A string without a delimiter, followed by a tag without any byte of the
    delimiter, is inert. *)
Lemma inert_none (a t : list ascii) :
  strings.Index a delim = None ->
  t <> [] ->
  Forall (fun x => ~ In x delim) t ->
  inert delim (a ++ t).
Proof.
  intros H Ht Hclean. induction a as [|b a IH].
  - now apply inert_clean.
  - intros r. cbn [app length] in *. rewrite Index_cons in *.
    destruct (strings.HasPrefix (b :: a) delim) eqn:Hp; [discriminate|].
    destruct (strings.Index a delim) as [i|] eqn:Hi; [discriminate|].
    specialize (IH eq_refl).
    assert (Hq : strings.HasPrefix (b :: (a ++ t) ++ r) delim = false).
    { destruct (strings.HasPrefix (b :: (a ++ t) ++ r) delim) eqn:Hq;
        [|reflexivity].
      destruct t as [|y t]; [contradiction|].
      rewrite <- app_assoc in Hq. cbn [app] in Hq.
      apply (HasPrefix_barrier delim (b :: a) _ [] y) in Hq.
      - rewrite app_nil_r in Hq. congruence.
      - now inversion Hclean. }
    rewrite Hq, IH. now destruct (strings.Index r delim).
Qed.

(** Such a tag separates the delimiters before it from those behind it. *)
Lemma delimiters_barrier (t : list ascii) :
  t <> [] ->
  Forall (fun x => ~ In x delim) t ->
  forall a x,
    delimiters delim (a ++ t ++ x) = delimiters delim a + delimiters delim x.
Proof.
  intros Ht Hclean a. remember (length a) as n eqn:Hn. revert a Hn.
  induction n as [n IH] using lt_wf_ind. intros a Hn x.
  rewrite (delimiters_unfold (a ++ t ++ x)), (delimiters_unfold a).
  destruct (strings.Index a delim) as [i|] eqn:Hi.
  - rewrite (Index_app_l _ _ _ Hi).
    pose proof (strings.Index_bound _ _ _ Hi) as Hb.
    pose proof delim_length_pos as Hd.
    rewrite skipn_app.
    replace (i + length delim - length a) with 0 by lia. cbn [skipn].
    rewrite (IH (length (skipn (i + length delim) a))); [reflexivity| |reflexivity].
    rewrite length_skipn. lia.
  - pose proof (inert_none a t Hi Ht Hclean) as Hp.
    rewrite app_assoc, Hp.
    destruct (strings.Index x delim) as [j|] eqn:Hj; cbn [option_map].
    + rewrite (delimiters_unfold x), Hj. cbn [Nat.add]. f_equal. f_equal.
      now rewrite <- Nat.add_assoc, skipn_app_length.
    + now rewrite (delimiters_unfold x), Hj.
Qed.

(** *** The turn of the loop *)

Hypothesis open_nonempty : open <> [].
Hypothesis close_nonempty : close <> [].
Hypothesis open_clean : Forall (fun x => ~ In x delim) open.
Hypothesis close_clean : Forall (fun x => ~ In x delim) close.

(** The turn of the loop on a string whose first two delimiters are
    known. *)
Lemma pairStep_pair (a m r x y : list ascii) :
  strings.Index (a ++ delim ++ x) delim = Some (length a) ->
  strings.Index (m ++ delim ++ y) delim = Some (length m) ->
  srv.pairStep delim open close (a ++ delim ++ m ++ delim ++ r)
  = Some (a ++ open ++ m ++ close ++ r).
Proof.
  intros Ha Hm. unfold srv.pairStep.
  rewrite (Index_at_stable a x _ Ha).
  assert (E1 : skipn (length a + length delim) (a ++ delim ++ m ++ delim ++ r)
               = m ++ delim ++ r).
  { rewrite skipn_app_length.
    rewrite <- (Nat.add_0_r (length delim)). now rewrite skipn_app_length. }
  rewrite E1, (Index_at_stable m y _ Hm). f_equal.
  assert (E2 : firstn (length a) (a ++ delim ++ m ++ delim ++ r) = a).
  { rewrite <- (Nat.add_0_r (length a)), firstn_app_length. simpl.
    apply app_nil_r. }
  assert (E3 : skipn (length a + length delim)
                 (firstn (length m + (length a + length delim))
                    (a ++ delim ++ m ++ delim ++ r)) = m).
  { rewrite skipn_firstn_comm.
    replace (length m + (length a + length delim) - (length a + length delim))
      with (length m + 0) by lia.
    rewrite E1, firstn_app_length. simpl. apply app_nil_r. }
  assert (E4 : skipn (length m + (length a + length delim) + length delim)
                 (a ++ delim ++ m ++ delim ++ r) = r).
  { replace (length m + (length a + length delim) + length delim)
      with ((length m + length delim) + (length a + length delim)) by lia.
    rewrite <- skipn_skipn, E1, skipn_app_length.
    rewrite <- (Nat.add_0_r (length delim)). now rewrite skipn_app_length. }
  now rewrite E2, E3, E4.
Qed.

(** What a turn leaves in front of the rest is inert. *)
Lemma pairStep_inert_front (s s' : list ascii) :
  srv.pairStep delim open close s = Some s' ->
  exists a m r,
    s = a ++ delim ++ m ++ delim ++ r /\
    s' = (a ++ open ++ m ++ close) ++ r /\
    strings.Index s delim = Some (length a) /\
    strings.Index (m ++ delim ++ r) delim = Some (length m) /\
    inert delim (a ++ open ++ m ++ close).
Proof.
  intros H. apply srv.pairStep_split in H as (a & m & r & Hs & Hs' & Ha & Hm).
  exists a, m, r. repeat split; auto.
  - rewrite Hs'. now rewrite <- !app_assoc.
  - rewrite app_assoc. apply inert_app.
    + rewrite Hs in Ha. now apply (inert_before a (m ++ delim ++ r)).
    + now apply (inert_before m r).
Qed.

(** The turn of the loop behind an inert front. *)
Lemma pairStep_behind (p r : list ascii) :
  inert delim p ->
  srv.pairStep delim open close (p ++ r)
  = option_map (app p) (srv.pairStep delim open close r).
Proof.
  intros Hp. unfold srv.pairStep. rewrite Hp.
  destruct (strings.Index r delim) as [i|]; [|reflexivity]. cbn [option_map].
  rewrite <- Nat.add_assoc, skipn_app_length.
  destruct (strings.Index (skipn (i + length delim) r) delim) as [e|];
    [|reflexivity].
  cbn [option_map]. f_equal.
  replace (e + (length p + (i + length delim)))
    with (length p + (e + (i + length delim))) by lia.
  replace (length p + (e + (i + length delim)) + length delim)
    with (length p + (e + (i + length delim) + length delim)) by lia.
  rewrite !firstn_app_length, !skipn_app_length, <- app_assoc.
  reflexivity.
Qed.

(** The loop behind an inert front. *)
Lemma runs_behind (p r r' : list ascii) :
  inert delim p ->
  runs (srv.pairStep delim open close) r r' ->
  runs (srv.pairStep delim open close) (p ++ r) (p ++ r').
Proof.
  intros Hp. induction 1 as [s Hs|s s' r' Hs _ IH].
  - apply runs_break. now rewrite pairStep_behind, Hs.
  - apply runs_turn with (p ++ s'); [|exact IH].
    now rewrite pairStep_behind, Hs.
Qed.

(** The loop on a string whose first two delimiters are known: they become
    the two tags, whatever stands between them, and the loop goes on behind
    them. *)
Lemma runs_pair (a m r out x y : list ascii) :
  strings.Index (a ++ delim ++ x) delim = Some (length a) ->
  strings.Index (m ++ delim ++ y) delim = Some (length m) ->
  runs (srv.pairStep delim open close) r out ->
  runs (srv.pairStep delim open close)
    (a ++ delim ++ m ++ delim ++ r) (a ++ open ++ m ++ close ++ out).
Proof.
  intros Ha Hm Hr.
  apply runs_turn with (1 := pairStep_pair a m r x y Ha Hm).
  assert (Hp : inert delim (a ++ open ++ m ++ close)).
  { rewrite app_assoc. apply inert_app.
    - now apply (inert_before a x).
    - now apply (inert_before m y). }
  replace (a ++ open ++ m ++ close ++ r)
    with ((a ++ open ++ m ++ close) ++ r) by (now rewrite <- !app_assoc).
  replace (a ++ open ++ m ++ close ++ out)
    with ((a ++ open ++ m ++ close) ++ out) by (now rewrite <- !app_assoc).
  now apply runs_behind.
Qed.

(** A turn takes two delimiters away. *)
Lemma delimiters_pairStep (s s' : list ascii) :
  srv.pairStep delim open close s = Some s' ->
  delimiters delim s = S (S (delimiters delim s')).
Proof.
  intros H.
  apply pairStep_inert_front in H as (a & m & r & Hs & Hs' & Ha & Hm & Hp).
  rewrite Hs', (delimiters_behind _ _ Hp).
  rewrite (delimiters_unfold s), Ha. f_equal.
  rewrite Hs, skipn_app_length.
  rewrite <- (Nat.add_0_r (length delim)), skipn_app_length. cbn [skipn].
  rewrite (delimiters_unfold (m ++ delim ++ r)), Hm. f_equal.
  rewrite skipn_app_length.
  rewrite <- (Nat.add_0_r (length delim)), skipn_app_length. reflexivity.
Qed.

(** With an odd number of delimiters the loop pairs all but the last one,
    which stays where it is, with everything behind it. *)
Lemma odd_last_stays (s : list ascii) :
  Nat.odd (delimiters delim s) = true ->
  exists pre post out,
    s = pre ++ delim ++ post /\
    strings.Index post delim = None /\
    runs (srv.pairStep delim open close) pre out /\
    runs (srv.pairStep delim open close) s (out ++ delim ++ post).
Proof.
  remember (length s) as n eqn:Hn. revert s Hn.
  induction n as [n IH] using lt_wf_ind. intros s Hn Hodd.
  pose proof (delimiters_unfold s) as Hu.
  destruct (strings.Index s delim) as [i|] eqn:Hi;
    [|rewrite Hu in Hodd; discriminate].
  pose proof (strings.Index_split _ _ _ Hi) as Hs.
  pose proof (strings.Index_bound _ _ _ Hi) as Hb.
  set (s1 := skipn (i + length delim) s) in *.
  assert (Hlen : length (firstn i s) = i) by (rewrite length_firstn; lia).
  assert (Ha : strings.Index (firstn i s ++ delim ++ s1) delim
               = Some (length (firstn i s))).
  { now rewrite <- Hs, Hlen. }
  destruct (srv.pairStep delim open close s) as [s'|] eqn:Hstep.
  - pose proof (delimiters_pairStep _ _ Hstep) as Hd.
    apply pairStep_inert_front in Hstep
      as (a & m & r & Es & Es' & Ha0 & Hm & Hp).
    rewrite Hd, Es', (delimiters_behind _ _ Hp) in Hodd.
    change (Nat.odd (delimiters delim r) = true) in Hodd.
    assert (Hr : length r < n).
    { rewrite Hn, Es, !length_app. pose proof delim_length_pos. lia. }
    destruct (IH _ Hr r eq_refl Hodd) as (pre & post & out & Er & Hpost & R1 & R2).
    assert (Ha' : strings.Index (a ++ delim ++ m ++ delim ++ r) delim
                  = Some (length a)) by (now rewrite <- Es).
    exists (a ++ delim ++ m ++ delim ++ pre), post,
      ((a ++ open ++ m ++ close) ++ out).
    repeat split.
    + rewrite Es, Er. now rewrite <- !app_assoc.
    + exact Hpost.
    + apply runs_turn with ((a ++ open ++ m ++ close) ++ pre).
      * rewrite <- !app_assoc. apply (pairStep_pair a m pre _ _ Ha' Hm).
      * now apply runs_behind.
    + apply runs_turn with ((a ++ open ++ m ++ close) ++ r).
      * rewrite Es, <- !app_assoc. apply (pairStep_pair a m r _ _ Ha' Hm).
      * rewrite <- (app_assoc (a ++ open ++ m ++ close) out).
        now apply runs_behind.
  - exists (firstn i s), s1, (firstn i s).
    assert (Hs1 : strings.Index s1 delim = None).
    { unfold srv.pairStep in Hstep. rewrite Hi in Hstep. fold s1 in Hstep.
      now destruct (strings.Index s1 delim). }
    repeat split.
    + exact Hs.
    + exact Hs1.
    + apply runs_break. unfold srv.pairStep.
      now rewrite (Index_before_none _ _ Ha).
    + rewrite <- Hs. now apply runs_break.
Qed.

End Pairing.

(** The loop relation is a function. *)
Lemma runs_det (step : list ascii -> option (list ascii)) (s r1 r2 : list ascii) :
  runs step s r1 -> runs step s r2 -> r1 = r2.
Proof.
  intros H1; revert r2.
  induction H1 as [s Hs|s s' r Hs _ IH]; intros r2 H2.
  - inversion H2; subst; [reflexivity|congruence].
  - inversion H2; subst; [congruence|].
    apply IH. congruence.
Qed.

(** The two loops of [processInlineFormatting] run to their [break]. *)
Lemma runs_boldLoop (s : list ascii) : runs srv.boldStep s (srv.boldLoop s).
Proof.
  funelim (srv.boldLoop s).
  - eapply runs_turn; eassumption.
  - now apply runs_break.
Qed.

Lemma runs_codeLoop (s : list ascii) : runs srv.codeStep s (srv.codeLoop s).
Proof.
  funelim (srv.codeLoop s).
  - eapply runs_turn; eassumption.
  - now apply runs_break.
Qed.

(** The tags have no byte of their delimiter. *)
Ltac clean_tag :=
  repeat (constructor; [simpl; intuition discriminate|]); constructor.

Lemma bold_tags_clean :
  Forall (fun x => ~ In x (list_ascii_of_string "**")) "<strong>" /\
  Forall (fun x => ~ In x (list_ascii_of_string "**")) "</strong>".
Proof. split; clean_tag. Qed.

Lemma code_tags_clean :
  Forall (fun x => ~ In x (list_ascii_of_string "`")) "<code>" /\
  Forall (fun x => ~ In x (list_ascii_of_string "`")) "</code>".
Proof. split; clean_tag. Qed.

Lemma boldStep_delimiters (s s' : list ascii) :
  srv.boldStep s = Some s' -> delimiters "**" s = S (S (delimiters "**" s')).
Proof.
  apply delimiters_pairStep; try discriminate; apply bold_tags_clean.
Qed.

Lemma codeStep_delimiters (s s' : list ascii) :
  srv.codeStep s = Some s' -> delimiters "`" s = S (S (delimiters "`" s')).
Proof.
  apply delimiters_pairStep; try discriminate; apply code_tags_clean.
Qed.

(** C5: rendering returns a result for every input: the blocks are written
    by one pass over the lines, and each of the two pairing loops, entered
    with any string, reaches its [break]; every turn of a loop leaves fewer
    delimiters than it found. *)
Theorem render_terminates :
  (forall content : list ascii,
      exists bold html,
        runs srv.boldStep (srv.renderBlocks content) bold /\
        runs srv.codeStep bold html /\
        srv.renderContent content = html)
  /\ (forall s : list ascii, exists r, runs srv.boldStep s r)
  /\ (forall s : list ascii, exists r, runs srv.codeStep s r)
  /\ (forall s s' : list ascii,
         srv.boldStep s = Some s' -> delimiters "**" s' < delimiters "**" s)
  /\ (forall s s' : list ascii,
         srv.codeStep s = Some s' -> delimiters "`" s' < delimiters "`" s).
Proof.
  repeat split.
  - intros content.
    exists (srv.boldLoop (srv.renderBlocks content)), (srv.renderContent content).
    repeat split; [apply runs_boldLoop|apply runs_codeLoop].
  - intros s. exists (srv.boldLoop s). apply runs_boldLoop.
  - intros s. exists (srv.codeLoop s). apply runs_codeLoop.
  - intros s s' H. rewrite (boldStep_delimiters _ _ H). lia.
  - intros s s' H. rewrite (codeStep_delimiters _ _ H). lia.
Qed.

Lemma render_terminates_witness :
  delimiters "**" "<strong>a</strong> **" < delimiters "**" "**a** **".
Proof.
  exact (proj1 (proj2 (proj2 (proj2 render_terminates)))
           "**a** **" "<strong>a</strong> **" eq_refl).
Defined.

(** The loop keeps the parity of the number of delimiters, and leaves at most
    one. *)
Lemma runs_bold_delimiters (s r : list ascii) :
  runs srv.boldStep s r ->
  Nat.odd (delimiters "**" r) = Nat.odd (delimiters "**" s) /\
  delimiters "**" r <= 1.
Proof.
  induction 1 as [s Hs|s s' r Hs _ [IH1 IH2]].
  - split; [reflexivity|].
    rewrite delimiters_unfold by discriminate.
    unfold srv.boldStep, srv.pairStep in Hs.
    destruct (strings.Index s "**") as [i|]; [|lia].
    rewrite delimiters_unfold by discriminate.
    destruct (strings.Index (skipn (i + length (list_ascii_of_string "**")) s) "**");
      [discriminate|lia].
  - split; [|exact IH2].
    rewrite IH1, (boldStep_delimiters _ _ Hs). reflexivity.
Qed.

(** The second loop neither takes a [**] away nor makes one. *)
Lemma codeStep_keeps_bold (s s' : list ascii) :
  srv.codeStep s = Some s' -> delimiters "**" s' = delimiters "**" s.
Proof.
  intros H. apply srv.pairStep_split in H as (a & m & r & -> & -> & _).
  assert (B : forall t : list ascii,
             t <> [] -> Forall (fun x => ~ In x (list_ascii_of_string "**")) t ->
             forall a x, delimiters "**" (a ++ t ++ x)
                         = delimiters "**" a + delimiters "**" x).
  { intros t. apply delimiters_barrier. discriminate. }
  rewrite (B "<code>"), (B "</code>"), (B "`"), (B "`")
    by (discriminate || clean_tag).
  reflexivity.
Qed.

Lemma runs_code_keeps_bold (s r : list ascii) :
  runs srv.codeStep s r -> delimiters "**" r = delimiters "**" s.
Proof.
  induction 1 as [s Hs|s s' r Hs _ IH]; [reflexivity|].
  now rewrite IH, (codeStep_keeps_bold _ _ Hs).
Qed.

(** C9: in a string with an odd number of [**] delimiters, the bold loop
    leaves the last delimiter where it is, with everything behind it, and
    pairs what stands before it; exactly one delimiter is left, also after
    the second loop.  The example of the specification renders without a
    [<strong>] tag. *)
Theorem odd_bold_delimiter_stays_literal :
  (forall s : list ascii,
      Nat.odd (delimiters "**" s) = true ->
      exists pre post,
        s = pre ++ "**" ++ post /\
        strings.Index post "**" = None /\
        srv.boldLoop s = srv.boldLoop pre ++ "**" ++ post /\
        delimiters "**" (srv.boldLoop s) = 1 /\
        delimiters "**" (srv.processInlineFormatting s) = 1)
  /\ srv.renderContent "a ** b" = "<p>a ** b</p>" ++ [LF]
  /\ Contains (srv.renderContent "a ** b") "<strong>" = false.
Proof.
  split; [|vm_compute; auto].
  intros s Hodd.
  destruct (odd_last_stays "**" "<strong>" "</strong>") with (s := s)
    as (pre & post & out & Es & Hpost & R1 & R2);
    try discriminate; try apply bold_tags_clean; [exact Hodd|].
  assert (H1 : delimiters "**" (srv.boldLoop s) = 1).
  { destruct (runs_bold_delimiters _ _ (runs_boldLoop s)) as [Hp Hle].
    rewrite Hodd in Hp.
    destruct (delimiters "**" (srv.boldLoop s)) as [|[|n]];
      [discriminate|reflexivity|lia]. }
  exists pre, post. repeat split; auto.
  - rewrite (runs_det _ _ _ _ (runs_boldLoop s) R2).
    now rewrite (runs_det _ _ _ _ (runs_boldLoop pre) R1).
  - unfold srv.processInlineFormatting.
    now rewrite (runs_code_keeps_bold _ _ (runs_codeLoop _)).
Qed.

Lemma odd_bold_delimiter_stays_literal_witness :
  exists pre post : list ascii,
    list_ascii_of_string "**a** b ** c" = pre ++ "**" ++ post /\
    strings.Index post "**" = None /\
    srv.boldLoop "**a** b ** c" = srv.boldLoop pre ++ "**" ++ post /\
    delimiters "**" (srv.boldLoop "**a** b ** c") = 1 /\
    delimiters "**" (srv.processInlineFormatting "**a** b ** c") = 1.
Proof.
  exact (proj1 odd_bold_delimiter_stays_literal "**a** b ** c" eq_refl).
Defined.

(** The two loops on a string whose first two delimiters are known. *)
Lemma boldLoop_pair (a m r : list ascii) :
  strings.Index (a ++ "**" ++ m ++ "**" ++ r) "**" = Some (length a) ->
  strings.Index (m ++ "**" ++ r) "**" = Some (length m) ->
  srv.boldLoop (a ++ "**" ++ m ++ "**" ++ r)
  = a ++ "<strong>" ++ m ++ "</strong>" ++ srv.boldLoop r.
Proof.
  intros Ha Hm.
  apply (runs_det srv.boldStep (a ++ "**" ++ m ++ "**" ++ r));
    [apply runs_boldLoop|].
  apply (runs_pair "**" "<strong>" "</strong>")
    with (x := m ++ "**" ++ r) (y := r);
    try discriminate; try apply bold_tags_clean; try assumption.
  apply runs_boldLoop.
Qed.

Lemma codeLoop_pair (a m r : list ascii) :
  strings.Index (a ++ "`" ++ m ++ "`" ++ r) "`" = Some (length a) ->
  strings.Index (m ++ "`" ++ r) "`" = Some (length m) ->
  srv.codeLoop (a ++ "`" ++ m ++ "`" ++ r)
  = a ++ "<code>" ++ m ++ "</code>" ++ srv.codeLoop r.
Proof.
  intros Ha Hm.
  apply (runs_det srv.codeStep (a ++ "`" ++ m ++ "`" ++ r));
    [apply runs_codeLoop|].
  apply (runs_pair "`" "<code>" "</code>")
    with (x := m ++ "`" ++ r) (y := r);
    try discriminate; try apply code_tags_clean; try assumption.
  apply runs_codeLoop.
Qed.

(** C1, as the code has it: every text segment is written escaped and
    wrapped in its block tag without inline formatting; the inline
    formatting runs once, over the whole output, after the last line; the
    first two [**] of that output, and then its first two backticks, are
    paired whatever stands between them, block tags included, and the
    pairing goes on behind them. *)
Theorem inline_formatting_runs_over_whole_output :
  (forall content : list ascii,
      srv.renderContent content
      = srv.codeLoop (srv.boldLoop (srv.renderBlocks content)))
  /\ (forall st : srv.state,
         srv.sb (srv.flushParagraph st)
         = srv.sb st ++ paragraphHTML (srv.paragraph st))
  /\ (forall a m r : list ascii,
         strings.Index (a ++ "**" ++ m ++ "**" ++ r) "**" = Some (length a) ->
         strings.Index (m ++ "**" ++ r) "**" = Some (length m) ->
         srv.boldLoop (a ++ "**" ++ m ++ "**" ++ r)
         = a ++ "<strong>" ++ m ++ "</strong>" ++ srv.boldLoop r)
  /\ (forall a m r : list ascii,
         strings.Index (a ++ "`" ++ m ++ "`" ++ r) "`" = Some (length a) ->
         strings.Index (m ++ "`" ++ r) "`" = Some (length m) ->
         srv.codeLoop (a ++ "`" ++ m ++ "`" ++ r)
         = a ++ "<code>" ++ m ++ "</code>" ++ srv.codeLoop r)
  /\ srv.renderBlocks ("a ** b" ++ [LF; LF] ++ "# c ** d")
     = "<p>a ** b</p>" ++ [LF] ++ "<h2>c ** d</h2>" ++ [LF]
  /\ srv.renderContent ("a ** b" ++ [LF; LF] ++ "# c ** d")
     = "<p>a <strong> b</p>" ++ [LF] ++ "<h2>c </strong> d</h2>" ++ [LF].
Proof.
  split; [reflexivity|].
  split; [intros st; now rewrite flushParagraph_spec|].
  split; [exact boldLoop_pair|].
  split; [exact codeLoop_pair|].
  vm_compute. auto.
Qed.

Lemma inline_formatting_runs_over_whole_output_witness :
  srv.boldLoop ("<p>a " ++ "**" ++ " b</p><p>c " ++ "**" ++ " d</p>")
  = "<p>a " ++ "<strong>" ++ " b</p><p>c " ++ "</strong>"
      ++ srv.boldLoop " d</p>".
Proof.
  exact (proj1 (proj2 (proj2 inline_formatting_runs_over_whole_output))
           "<p>a " " b</p><p>c " " d</p>" eq_refl eq_refl).
Defined.

(** C1 as stated fails: a [**] in one paragraph pairs with a [**] in the
    next one, across the block tags. *)
Lemma delimiters_pair_across_blocks :
  srv.renderContent ("a ** b" ++ [LF; LF] ++ "c ** d")
  = "<p>a <strong> b</p>" ++ [LF] ++ "<p>c </strong> d</p>" ++ [LF].
Proof. vm_compute. reflexivity. Qed.

(** * The marked renderer is the renderer *)

Lemma erase_TrimSpace (m : list cell) :
  erase (Marked.TrimSpace m) = strings.TrimSpace (erase m).
Proof.
  unfold Marked.TrimSpace, strings.TrimSpace.
  now rewrite erase_skipn, erase_firstn.
Qed.

Lemma erase_TrimPrefix (m : list cell) (prefix : list ascii) :
  erase (Marked.TrimPrefix m prefix) = strings.TrimPrefix (erase m) prefix.
Proof.
  unfold Marked.TrimPrefix, strings.TrimPrefix.
  destruct (strings.HasPrefix (erase m) prefix); [apply erase_skipn|reflexivity].
Qed.

Lemma erase_HTMLEscapeString (m : list cell) :
  erase (Marked.HTMLEscapeString m) = template.HTMLEscapeString (erase m).
Proof.
  unfold Marked.HTMLEscapeString, template.HTMLEscapeString.
  induction m as [|c m IH]; [reflexivity|].
  cbn [flat_map erase map]. rewrite erase_app. fold (erase m). rewrite IH.
  f_equal. destruct (template.escaped (fst c)); [apply erase_mark|reflexivity].
Qed.

Lemma erase_Join (ms : list (list cell)) (o : origin) (sep : list ascii) :
  erase (strings.Join ms (mark o sep)) = strings.Join (map erase ms) sep.
Proof.
  induction ms as [|m ms IH]; [reflexivity|].
  destruct ms as [|m' ms]; [reflexivity|].
  change (erase (m ++ mark o sep ++ strings.Join (m' :: ms) (mark o sep))
          = erase m ++ sep ++ strings.Join (map erase (m' :: ms)) sep).
  now rewrite !erase_app, erase_mark, IH.
Qed.

Lemma erase_SplitBy (m : list cell) :
  map erase (strings.SplitBy (fun c => Ascii.eqb LF (fst c)) m)
  = strings.Split (erase m) LF.
Proof.
  unfold strings.Split. induction m as [|c m IH]; [reflexivity|].
  cbn [strings.SplitBy erase map]. fold (erase m).
  destruct (Ascii.eqb LF (fst c)).
  - cbn [map]. now rewrite IH.
  - rewrite <- IH.
    now destruct (strings.SplitBy (fun c => Ascii.eqb LF (fst c)) m).
Qed.

Lemma erase_WriteCells (st : Marked.state) (m : list cell) :
  eraseState (Marked.WriteCells st m) = srv.WriteString (eraseState st) (erase m).
Proof.
  unfold eraseState, Marked.WriteCells, srv.WriteString. cbn.
  now rewrite erase_app.
Qed.

Lemma erase_WriteString (st : Marked.state) (s : list ascii) :
  eraseState (Marked.WriteString st s) = srv.WriteString (eraseState st) s.
Proof.
  unfold Marked.WriteString. now rewrite erase_WriteCells, erase_mark.
Qed.

Lemma erase_flushParagraph (st : Marked.state) :
  eraseState (Marked.flushParagraph st) = srv.flushParagraph (eraseState st).
Proof.
  destruct st as [b c l [|x p]]; [reflexivity|].
  unfold Marked.flushParagraph, srv.flushParagraph.
  cbn [Marked.paragraph srv.paragraph eraseState].
  rewrite <- (erase_Join (x :: p) Glue " "), <- erase_HTMLEscapeString.
  cbn [map].
  unfold eraseState, Marked.setParagraph, srv.setParagraph, Marked.WriteString,
    Marked.WriteCells, srv.WriteString.
  cbn. now rewrite ?erase_app, ?erase_mark.
Qed.

Lemma erase_closeList (st : Marked.state) :
  eraseState (Marked.closeList st) = srv.closeList (eraseState st).
Proof.
  destruct st as [b c [|] p]; [|reflexivity].
  unfold Marked.closeList, srv.closeList, eraseState. cbn.
  now rewrite ?erase_app, ?erase_mark.
Qed.

Lemma erase_writeHeader (st : Marked.state) (t : list cell) (prefix : list ascii) :
  eraseState (Marked.writeHeader st t prefix)
  = srv.writeHeader (eraseState st) (erase t) prefix.
Proof.
  unfold Marked.writeHeader, srv.writeHeader.
  now rewrite erase_WriteString, erase_WriteCells, erase_WriteString,
    erase_closeList, erase_flushParagraph, erase_HTMLEscapeString,
    erase_TrimPrefix.
Qed.

Lemma erase_setInCodeBlock (st : Marked.state) (b : bool) :
  eraseState (Marked.setInCodeBlock st b) = srv.setInCodeBlock (eraseState st) b.
Proof. reflexivity. Qed.

Lemma erase_setInList (st : Marked.state) (b : bool) :
  eraseState (Marked.setInList st b) = srv.setInList (eraseState st) b.
Proof. reflexivity. Qed.

Lemma erase_inCodeBlock (st : Marked.state) :
  srv.inCodeBlock (eraseState st) = Marked.inCodeBlock st.
Proof. reflexivity. Qed.

Lemma erase_inList (st : Marked.state) :
  srv.inList (eraseState st) = Marked.inList st.
Proof. reflexivity. Qed.

Lemma erase_processLine (st : Marked.state) (line : list cell) :
  eraseState (Marked.processLine st line)
  = srv.processLine (eraseState st) (erase line).
Proof.
  unfold Marked.processLine, srv.processLine.
  rewrite <- erase_TrimSpace, erase_inCodeBlock.
  set (st1 := if strings.HasPrefix (erase line) "    " && negb (Marked.inCodeBlock st)
              then _ else st).
  set (st1' := if strings.HasPrefix (erase line) "    " && negb (Marked.inCodeBlock st)
               then _ else eraseState st).
  assert (E1 : eraseState st1 = st1').
  { unfold st1, st1'.
    destruct (strings.HasPrefix (erase line) "    " && negb (Marked.inCodeBlock st));
      [|reflexivity].
    now rewrite erase_setInCodeBlock, erase_WriteString, erase_closeList,
      erase_flushParagraph. }
  clearbody st1 st1'. subst st1'. rewrite erase_inCodeBlock.
  destruct (Marked.inCodeBlock st1 && strings.HasPrefix (erase line) "    ").
  { now rewrite erase_WriteString, erase_WriteCells, erase_HTMLEscapeString,
      erase_TrimPrefix. }
  set (st2 := if Marked.inCodeBlock st1 then _ else st1).
  set (st2' := if Marked.inCodeBlock st1 then _ else eraseState st1).
  assert (E2 : eraseState st2 = st2').
  { unfold st2, st2'. destruct (Marked.inCodeBlock st1); [|reflexivity].
    now rewrite erase_setInCodeBlock, erase_WriteString. }
  clearbody st2 st2'. subst st2'.
  destruct (eqs (erase (Marked.TrimSpace line)) []).
  { now rewrite erase_closeList, erase_flushParagraph. }
  destruct (strings.HasPrefix (erase (Marked.TrimSpace line)) "## ").
  { apply erase_writeHeader. }
  destruct (strings.HasPrefix (erase (Marked.TrimSpace line)) "# ").
  { apply erase_writeHeader. }
  destruct (strings.HasPrefix (erase (Marked.TrimSpace line)) "- ").
  - set (st3 := if negb (Marked.inList (Marked.flushParagraph st2))
                then _ else Marked.flushParagraph st2).
    set (st3' := if negb (srv.inList (srv.flushParagraph (eraseState st2)))
                 then _ else srv.flushParagraph (eraseState st2)).
    assert (E3 : eraseState st3 = st3').
    { unfold st3, st3'. rewrite <- erase_flushParagraph, erase_inList.
      destruct (Marked.inList (Marked.flushParagraph st2)); [reflexivity|].
      cbn [negb]. now rewrite erase_setInList, erase_WriteString. }
    clearbody st3 st3'. subst st3'.
    now rewrite erase_WriteString, erase_WriteCells, erase_WriteString,
      erase_HTMLEscapeString, erase_TrimPrefix.
  - unfold eraseState, Marked.setParagraph, srv.setParagraph. cbn.
    now rewrite map_app.
Qed.

Lemma erase_fold_processLine (lines : list (list cell)) (st : Marked.state) :
  eraseState (fold_left Marked.processLine lines st)
  = fold_left srv.processLine (map erase lines) (eraseState st).
Proof.
  revert st; induction lines as [|l lines IH]; intros st; [reflexivity|].
  cbn [fold_left map]. now rewrite IH, erase_processLine.
Qed.

Lemma erase_finish (st : Marked.state) :
  eraseState (Marked.finish st) = srv.finish (eraseState st).
Proof.
  unfold Marked.finish, srv.finish.
  rewrite erase_flushParagraph. f_equal.
  destruct st as [b [|] [|] p]; cbn;
    unfold eraseState, srv.WriteString; cbn;
    rewrite ?erase_app; reflexivity.
Qed.

Lemma erase_renderBlocks (content : list ascii) :
  erase (Marked.renderBlocks (mark Input content)) = srv.renderBlocks content.
Proof.
  unfold Marked.renderBlocks, srv.renderBlocks.
  change (erase (Marked.sb ?st)) with (srv.sb (eraseState st)).
  now rewrite erase_finish, erase_fold_processLine, erase_SplitBy, erase_mark.
Qed.

Lemma erase_boldLoop (m : list cell) :
  erase (Marked.boldLoop m) = srv.boldLoop (erase m).
Proof.
  funelim (Marked.boldLoop m).
  - match goal with IH : erase _ = srv.boldLoop _ |- _ => rewrite IH end.
    apply (runs_det srv.boldStep (erase m)); [|apply runs_boldLoop].
    eapply runs_turn; [apply Marked.boldStep_erase; eassumption|].
    apply runs_boldLoop.
  - apply (runs_det srv.boldStep (erase m)); [|apply runs_boldLoop].
    apply runs_break. unfold srv.boldStep. rewrite <- Marked.pairStep_erase.
    fold Marked.boldStep. now rewrite e.
Qed.

Lemma erase_codeLoop (m : list cell) :
  erase (Marked.codeLoop m) = srv.codeLoop (erase m).
Proof.
  funelim (Marked.codeLoop m).
  - match goal with IH : erase _ = srv.codeLoop _ |- _ => rewrite IH end.
    apply (runs_det srv.codeStep (erase m)); [|apply runs_codeLoop].
    eapply runs_turn; [apply Marked.codeStep_erase; eassumption|].
    apply runs_codeLoop.
  - apply (runs_det srv.codeStep (erase m)); [|apply runs_codeLoop].
    apply runs_break. unfold srv.codeStep. rewrite <- Marked.pairStep_erase.
    fold Marked.codeStep. now rewrite e.
Qed.

(** Without the marks, the marked renderer writes what [renderContent]
    writes. *)
Lemma erase_renderContent (content : list ascii) :
  erase (Marked.renderContent content) = srv.renderContent content.
Proof.
  unfold Marked.renderContent, Marked.processInlineFormatting,
    srv.renderContent, srv.processInlineFormatting.
  now rewrite erase_codeLoop, erase_boldLoop, erase_renderBlocks.
Qed.

(** * No byte of the input reaches the output as [<], [>], [&] or a double
    quote *)

Lemma safeb_escapedOrTag (c : cell) : safeb c = true -> escapedOrTag c.
Proof.
  destruct c as [a o]. unfold safeb, escapedOrTag. cbn [fst snd].
  destruct (Ascii.eqb_spec a "<"), (Ascii.eqb_spec a ">"),
    (Ascii.eqb_spec a "&"), (Ascii.eqb_spec a DQUOTE);
    destruct o; cbn; intros H; try discriminate; subst;
    repeat split; try tauto; try discriminate; intuition congruence.
Qed.

Lemma safe_app (m n : list cell) : safe m -> safe n -> safe (m ++ n).
Proof. unfold safe. rewrite forallb_app. now intros -> ->. Qed.

Lemma safe_firstn (n : nat) (m : list cell) : safe m -> safe (firstn n m).
Proof.
  unfold safe. intros H. rewrite <- (firstn_skipn n m), forallb_app in H.
  now apply andb_prop in H.
Qed.

Lemma safe_skipn (n : nat) (m : list cell) : safe m -> safe (skipn n m).
Proof.
  unfold safe. intros H. rewrite <- (firstn_skipn n m), forallb_app in H.
  now apply andb_prop in H.
Qed.

(** Whatever it is given, [HTMLEscapeString] returns safe bytes. *)
Lemma safe_HTMLEscapeString (m : list cell) : safe (Marked.HTMLEscapeString m).
Proof.
  unfold Marked.HTMLEscapeString.
  induction m as [|[a o] m IH]; [reflexivity|].
  cbn [flat_map]. apply safe_app; [|exact IH].
  unfold template.escaped. cbn [fst].
  destruct (Ascii.eqb a "000") eqn:E0; [reflexivity|].
  destruct (Ascii.eqb a DQUOTE) eqn:E1; [reflexivity|].
  destruct (Ascii.eqb a "'") eqn:E2; [reflexivity|].
  destruct (Ascii.eqb a "&") eqn:E3; [reflexivity|].
  destruct (Ascii.eqb a "<") eqn:E4; [reflexivity|].
  destruct (Ascii.eqb a ">") eqn:E5; [reflexivity|].
  unfold safe, safeb. cbn [forallb fst snd]. rewrite E1, E3, E4, E5.
  now destruct o.
Qed.

Create HintDb safe.

#[local] Hint Resolve safe_app safe_firstn safe_skipn safe_HTMLEscapeString : safe.
#[local] Hint Extern 1 (safe (mark Tag _)) => reflexivity : safe.

Lemma safe_WriteCells (st : Marked.state) (m : list cell) :
  safe (Marked.sb st) -> safe m -> safe (Marked.sb (Marked.WriteCells st m)).
Proof. intros. cbn. auto with safe. Qed.

Lemma safe_WriteString (st : Marked.state) (s : list ascii) :
  safe (Marked.sb st) -> safe (mark Tag s) ->
  safe (Marked.sb (Marked.WriteString st s)).
Proof. intros. now apply safe_WriteCells. Qed.

Lemma safe_setInCodeBlock (st : Marked.state) (b : bool) :
  safe (Marked.sb st) -> safe (Marked.sb (Marked.setInCodeBlock st b)).
Proof. exact (fun H => H). Qed.

Lemma safe_setInList (st : Marked.state) (b : bool) :
  safe (Marked.sb st) -> safe (Marked.sb (Marked.setInList st b)).
Proof. exact (fun H => H). Qed.

Lemma safe_setParagraph (st : Marked.state) (p : list (list cell)) :
  safe (Marked.sb st) -> safe (Marked.sb (Marked.setParagraph st p)).
Proof. exact (fun H => H). Qed.

#[local] Hint Resolve safe_WriteCells safe_WriteString safe_setInCodeBlock
  safe_setInList safe_setParagraph : safe.

Lemma safe_flushParagraph (st : Marked.state) :
  safe (Marked.sb st) -> safe (Marked.sb (Marked.flushParagraph st)).
Proof.
  intros H. unfold Marked.flushParagraph.
  destruct (Marked.paragraph st); [exact H|].
  cbn [Marked.setParagraph Marked.sb]. auto 10 with safe.
Qed.

Lemma safe_closeList (st : Marked.state) :
  safe (Marked.sb st) -> safe (Marked.sb (Marked.closeList st)).
Proof.
  intros H. unfold Marked.closeList.
  destruct (Marked.inList st); [|exact H].
  cbn [Marked.setInList Marked.sb]. auto with safe.
Qed.

#[local] Hint Resolve safe_flushParagraph safe_closeList : safe.

Lemma safe_writeHeader (st : Marked.state) (t : list cell) (prefix : list ascii) :
  safe (Marked.sb st) -> safe (Marked.sb (Marked.writeHeader st t prefix)).
Proof. intros H. unfold Marked.writeHeader. auto 10 with safe. Qed.

#[local] Hint Resolve safe_writeHeader : safe.

Lemma safe_processLine (st : Marked.state) (line : list cell) :
  safe (Marked.sb st) -> safe (Marked.sb (Marked.processLine st line)).
Proof.
  intros H. unfold Marked.processLine.
  repeat match goal with
         | |- context [if ?b then _ else _] => destruct b
         end;
    auto 20 with safe.
Qed.

Lemma safe_fold_processLine (lines : list (list cell)) (st : Marked.state) :
  safe (Marked.sb st) -> safe (Marked.sb (fold_left Marked.processLine lines st)).
Proof.
  revert st; induction lines as [|l lines IH]; intros st H; [exact H|].
  cbn [fold_left]. apply IH. now apply safe_processLine.
Qed.

Lemma safe_renderBlocks (content : list cell) : safe (Marked.renderBlocks content).
Proof.
  unfold Marked.renderBlocks, Marked.finish.
  apply safe_flushParagraph.
  set (st := fold_left _ _ _).
  assert (H : safe (Marked.sb st)) by (apply safe_fold_processLine; reflexivity).
  repeat match goal with
         | |- context [if ?b then _ else _] => destruct b
         end;
    auto 10 with safe.
Qed.

Lemma safe_pairStep (delim open close : list ascii) (m m' : list cell) :
  safe (mark Tag open) -> safe (mark Tag close) ->
  safe m -> Marked.pairStep delim open close m = Some m' -> safe m'.
Proof.
  intros Ho Hc Hm. unfold Marked.pairStep.
  destruct (strings.Index (erase m) delim); [|discriminate].
  destruct (strings.Index _ delim); [|discriminate].
  intros [= <-]. auto 10 with safe.
Qed.

Lemma safe_boldLoop (m : list cell) : safe m -> safe (Marked.boldLoop m).
Proof.
  funelim (Marked.boldLoop m); intros Hm; [|exact Hm].
  match goal with IH : safe _ -> safe (Marked.boldLoop _) |- _ => apply IH end.
  eapply (safe_pairStep "**" "<strong>" "</strong>"); try eassumption; reflexivity.
Qed.

Lemma safe_codeLoop (m : list cell) : safe m -> safe (Marked.codeLoop m).
Proof.
  funelim (Marked.codeLoop m); intros Hm; [|exact Hm].
  match goal with IH : safe _ -> safe (Marked.codeLoop _) |- _ => apply IH end.
  eapply (safe_pairStep "`" "<code>" "</code>"); try eassumption; reflexivity.
Qed.

(** C3: in the output of the renderer every [<] and every [>] is a byte of a
    tag that the renderer wrote, every [&] is the first byte of an entity
    that [HTMLEscapeString] wrote in place of an input byte, and there is no
    double quote: no byte copied from the input is one of the four. *)
Theorem literal_text_is_escaped (content : list ascii) :
  erase (Marked.renderContent content) = srv.renderContent content /\
  Forall escapedOrTag (Marked.renderContent content).
Proof.
  split; [apply erase_renderContent|].
  assert (H : safe (Marked.renderContent content)).
  { apply safe_codeLoop, safe_boldLoop, safe_renderBlocks. }
  apply Forall_forall. intros c Hc. apply safeb_escapedOrTag.
  unfold safe in H. rewrite forallb_forall in H. now apply H.
Qed.

(** * More about the line loop: blocks and empty lines *)

Lemma SplitBy_cons {A : Type} (isSep : A -> bool) (s : list A) :
  exists piece rest, strings.SplitBy isSep s = piece :: rest.
Proof.
  destruct s as [|a s]; simpl; [eauto|].
  destruct (isSep a); [eauto|].
  destruct (strings.SplitBy isSep s); eauto.
Qed.

(** The pieces of two strings joined by a separator are the pieces of the
    first followed by the pieces of the second. *)
Lemma Split_app (a b : list ascii) (sep : ascii) :
  strings.Split (a ++ sep :: b) sep = strings.Split a sep ++ strings.Split b sep.
Proof.
  unfold strings.Split. induction a as [|x a IH]; cbn [app strings.SplitBy].
  - now rewrite Ascii.eqb_refl.
  - destruct (Ascii.eqb sep x); [now rewrite IH|].
    rewrite IH.
    destruct (SplitBy_cons (Ascii.eqb sep) a) as (p & r & ->). reflexivity.
Qed.

Lemma prepend_WriteString (p : list ascii) (st : srv.state) (s : list ascii) :
  srv.WriteString (prepend p st) s = prepend p (srv.WriteString st s).
Proof. unfold prepend, srv.WriteString. cbn. now rewrite app_assoc. Qed.

Lemma prepend_flushParagraph (p : list ascii) (st : srv.state) :
  srv.flushParagraph (prepend p st) = prepend p (srv.flushParagraph st).
Proof.
  unfold srv.flushParagraph. cbn [prepend srv.paragraph].
  destruct (srv.paragraph st) eqn:E; [reflexivity|].
  now rewrite !prepend_WriteString.
Qed.

Lemma prepend_closeList (p : list ascii) (st : srv.state) :
  srv.closeList (prepend p st) = prepend p (srv.closeList st).
Proof.
  unfold srv.closeList. cbn [prepend srv.inList].
  destruct (srv.inList st); [|reflexivity].
  now rewrite prepend_WriteString.
Qed.

Lemma prepend_writeHeader (p : list ascii) (st : srv.state) (t prefix : list ascii) :
  srv.writeHeader (prepend p st) t prefix = prepend p (srv.writeHeader st t prefix).
Proof.
  unfold srv.writeHeader.
  now rewrite prepend_flushParagraph, prepend_closeList, !prepend_WriteString.
Qed.

(** What a line adds to the builder does not depend on what the builder
    holds. *)
Lemma prepend_processLine (p : list ascii) (st : srv.state) (line : list ascii) :
  srv.processLine (prepend p st) line = prepend p (srv.processLine st line).
Proof.
  unfold srv.processLine.
  change (srv.inCodeBlock (prepend p st)) with (srv.inCodeBlock st).
  set (st1 := if strings.HasPrefix line "    " && negb (srv.inCodeBlock st)
              then _ else prepend p st).
  set (st1' := if strings.HasPrefix line "    " && negb (srv.inCodeBlock st)
               then _ else st).
  assert (E1 : st1 = prepend p st1').
  { unfold st1, st1'.
    destruct (strings.HasPrefix line "    " && negb (srv.inCodeBlock st));
      [|reflexivity].
    now rewrite prepend_flushParagraph, prepend_closeList, prepend_WriteString. }
  clearbody st1 st1'. subst st1.
  change (srv.inCodeBlock (prepend p st1')) with (srv.inCodeBlock st1').
  destruct (srv.inCodeBlock st1' && strings.HasPrefix line "    ").
  { now rewrite !prepend_WriteString. }
  set (st2 := if srv.inCodeBlock st1' then _ else prepend p st1').
  set (st2' := if srv.inCodeBlock st1' then _ else st1').
  assert (E2 : st2 = prepend p st2').
  { unfold st2, st2'. destruct (srv.inCodeBlock st1'); [|reflexivity].
    now rewrite prepend_WriteString. }
  clearbody st2 st2'. subst st2.
  destruct (eqs (strings.TrimSpace line) []).
  { now rewrite prepend_flushParagraph, prepend_closeList. }
  destruct (strings.HasPrefix (strings.TrimSpace line) "## ").
  { apply prepend_writeHeader. }
  destruct (strings.HasPrefix (strings.TrimSpace line) "# ").
  { apply prepend_writeHeader. }
  destruct (strings.HasPrefix (strings.TrimSpace line) "- "); [|reflexivity].
  rewrite prepend_flushParagraph.
  change (srv.inList (prepend p ?s)) with (srv.inList s).
  destruct (srv.inList (srv.flushParagraph st2')); cbn [negb].
  - now rewrite !prepend_WriteString.
  - rewrite !prepend_WriteString.
    change (srv.setInList (prepend p ?s) true) with (prepend p (srv.setInList s true)).
    now rewrite !prepend_WriteString.
Qed.

Lemma prepend_fold_processLine (p : list ascii) (lines : list (list ascii))
  (st : srv.state) :
  fold_left srv.processLine lines (prepend p st)
  = prepend p (fold_left srv.processLine lines st).
Proof.
  revert st; induction lines as [|l lines IH]; intros st; [reflexivity|].
  cbn [fold_left]. now rewrite prepend_processLine, IH.
Qed.

Lemma prepend_finish (p : list ascii) (st : srv.state) :
  srv.finish (prepend p st) = prepend p (srv.finish st).
Proof.
  unfold srv.finish. destruct st as [b [|] [|] q]; cbn;
    rewrite ?prepend_WriteString; cbn;
    rewrite <- prepend_flushParagraph; reflexivity.
Qed.

(** After an empty line nothing is open. *)
Lemma processLine_empty (st : srv.state) :
  exists out, srv.processLine st [] = prepend out srv.initial.
Proof.
  unfold srv.processLine.
  change (strings.HasPrefix [] "    ") with false.
  change (strings.TrimSpace []) with (@nil ascii).
  cbn [andb eqs]. rewrite andb_false_r.
  rewrite flush_close_spec.
  destruct st as [b [|] l q]; cbn; eexists; unfold prepend; cbn;
    rewrite app_nil_r; reflexivity.
Qed.

(** X1: at the block level, what stands before an empty line and what
    stands behind it are rendered independently: the output for
    [a ++ "\n\n" ++ b] is the output for [a ++ "\n\n"] followed by the
    output for [b]. *)
Theorem renderBlocks_splits_at_empty_line (a b : list ascii) :
  srv.renderBlocks (a ++ [LF; LF] ++ b)
  = srv.renderBlocks (a ++ [LF; LF]) ++ srv.renderBlocks b.
Proof.
  unfold srv.renderBlocks. cbn [app].
  rewrite !(Split_app a), !(Split_app [] _ LF : strings.Split (LF :: _) LF = _).
  change (strings.Split [] LF) with [@nil ascii].
  cbn [app]. rewrite !fold_left_app. cbn [fold_left].
  destruct (processLine_empty (fold_left srv.processLine (strings.Split a LF)
                                 srv.initial)) as [out ->].
  rewrite prepend_fold_processLine, !prepend_processLine, !prepend_finish.
  change (srv.finish (srv.processLine srv.initial [])) with srv.initial.
  unfold prepend at 2. cbn [srv.sb srv.initial].
  rewrite app_nil_r. reflexivity.
Qed.

(** * More about the pairing loops: what they leave and what they add *)

(** A loop leaves through its [break]. *)
Lemma runs_exit (step : list ascii -> option (list ascii)) (s r : list ascii) :
  runs step s r -> step r = None.
Proof. induction 1; assumption. Qed.

Lemma runs_fixed (step : list ascii -> option (list ascii)) (s r : list ascii) :
  step s = None -> runs step s r -> r = s.
Proof. intros H R. inversion R; subst; [reflexivity|congruence]. Qed.

Section PairingCounts.

Variables delim open close : list ascii.
Hypothesis delim_nonempty : delim <> [].
Hypothesis open_nonempty : open <> [].
Hypothesis close_nonempty : close <> [].
Hypothesis open_clean : Forall (fun x => ~ In x delim) open.
Hypothesis close_clean : Forall (fun x => ~ In x delim) close.

(** The loop breaks exactly on the strings with at most one delimiter. *)
Lemma pairStep_None_iff (s : list ascii) :
  srv.pairStep delim open close s = None <-> delimiters delim s <= 1.
Proof.
  split.
  - intros H. unfold srv.pairStep in H.
    rewrite (delimiters_unfold delim delim_nonempty s).
    destruct (strings.Index s delim) as [i|]; [|lia].
    rewrite (delimiters_unfold delim delim_nonempty (skipn _ s)).
    destruct (strings.Index (skipn (i + length delim) s) delim);
      [discriminate|lia].
  - intros H.
    destruct (srv.pairStep delim open close s) as [s'|] eqn:E; [|reflexivity].
    apply (delimiters_pairStep delim open close) in E; auto. lia.
Qed.

(** The loop leaves one delimiter when there was an odd number of them,
    none otherwise. *)
Lemma runs_delimiters_mod (s r : list ascii) :
  runs (srv.pairStep delim open close) s r ->
  delimiters delim r = delimiters delim s mod 2.
Proof.
  induction 1 as [s Hs|s s' r Hs _ IH].
  - apply pairStep_None_iff in Hs. symmetry. apply Nat.mod_small. lia.
  - apply (delimiters_pairStep delim open close) in Hs; auto.
    rewrite IH, Hs.
    replace (S (S (delimiters delim s'))) with (delimiters delim s' + 1 * 2)
      by lia.
    now rewrite Nat.Div0.mod_add.
Qed.

(** Every pair of delimiters is replaced by the two tags. *)
Lemma runs_length (s r : list ascii) :
  runs (srv.pairStep delim open close) s r ->
  length r + 2 * length delim * (delimiters delim s / 2)
  = length s + (length open + length close) * (delimiters delim s / 2).
Proof.
  induction 1 as [s Hs|s s' r Hs _ IH].
  - apply pairStep_None_iff in Hs.
    rewrite (Nat.div_small (delimiters delim s)) by lia. lia.
  - pose proof (delimiters_pairStep delim open close delim_nonempty
                  open_nonempty close_nonempty open_clean close_clean _ _ Hs)
      as Hd.
    apply srv.pairStep_split in Hs as (a & m & x & Es & Es' & _).
    rewrite Hd.
    replace (S (S (delimiters delim s'))) with (delimiters delim s' + 1 * 2)
      by lia.
    rewrite Nat.div_add by discriminate.
    remember (delimiters delim s' / 2) as q eqn:Hq. clear Hq.
    rewrite Es, !length_app. rewrite Es', !length_app in IH.
    rewrite !Nat.mul_add_distr_l, !Nat.mul_1_r. lia.
Qed.

End PairingCounts.

(** The first loop neither takes a backtick away nor adds one. *)
Lemma boldStep_keeps_code (s s' : list ascii) :
  srv.boldStep s = Some s' -> delimiters "`" s' = delimiters "`" s.
Proof.
  intros H. apply srv.pairStep_split in H as (a & m & r & -> & -> & _).
  assert (B : forall t : list ascii,
             t <> [] -> Forall (fun x => ~ In x (list_ascii_of_string "`")) t ->
             forall a x, delimiters "`" (a ++ t ++ x)
                         = delimiters "`" a + delimiters "`" x).
  { intros t. apply delimiters_barrier. discriminate. }
  rewrite (B "<strong>"), (B "</strong>"), (B "**"), (B "**")
    by (discriminate || clean_tag).
  reflexivity.
Qed.

Lemma runs_bold_keeps_code (s r : list ascii) :
  runs srv.boldStep s r -> delimiters "`" r = delimiters "`" s.
Proof.
  induction 1 as [s Hs|s s' r Hs _ IH]; [reflexivity|].
  now rewrite IH, (boldStep_keeps_code _ _ Hs).
Qed.

Lemma boldLoop_delimiters_mod (s : list ascii) :
  delimiters "**" (srv.boldLoop s) = delimiters "**" s mod 2.
Proof.
  apply (runs_delimiters_mod "**" "<strong>" "</strong>");
    try discriminate; try apply bold_tags_clean.
  apply runs_boldLoop.
Qed.

Lemma codeLoop_delimiters_mod (s : list ascii) :
  delimiters "`" (srv.codeLoop s) = delimiters "`" s mod 2.
Proof.
  apply (runs_delimiters_mod "`" "<code>" "</code>");
    try discriminate; try apply code_tags_clean.
  apply runs_codeLoop.
Qed.

(** X2: after [processInlineFormatting] no complete pair is left: one [**]
    remains when the string had an odd number of them and none otherwise,
    and the same for the backticks. *)
Theorem processInlineFormatting_leaves_parity (s : list ascii) :
  delimiters "**" (srv.processInlineFormatting s) = delimiters "**" s mod 2 /\
  delimiters "`" (srv.processInlineFormatting s) = delimiters "`" s mod 2.
Proof.
  unfold srv.processInlineFormatting. split.
  - rewrite (runs_code_keeps_bold _ _ (runs_codeLoop _)).
    apply boldLoop_delimiters_mod.
  - rewrite codeLoop_delimiters_mod.
    now rewrite (runs_bold_keeps_code _ _ (runs_boldLoop s)).
Qed.

(** X3: [processInlineFormatting] makes the string longer by 13 bytes for
    every pair of [**] (["<strong>"] and ["</strong>"] for four bytes) and by
    11 bytes for every pair of backticks. *)
Theorem processInlineFormatting_length (s : list ascii) :
  length (srv.processInlineFormatting s)
  = length s + 13 * (delimiters "**" s / 2) + 11 * (delimiters "`" s / 2).
Proof.
  unfold srv.processInlineFormatting.
  pose proof (runs_length "**" "<strong>" "</strong>") as Hb.
  specialize (Hb ltac:(discriminate) ltac:(discriminate) ltac:(discriminate)
                (proj1 bold_tags_clean) (proj2 bold_tags_clean)
                s _ (runs_boldLoop s)).
  pose proof (runs_length "`" "<code>" "</code>") as Hc.
  specialize (Hc ltac:(discriminate) ltac:(discriminate) ltac:(discriminate)
                (proj1 code_tags_clean) (proj2 code_tags_clean)
                _ _ (runs_codeLoop (srv.boldLoop s))).
  rewrite (runs_bold_keeps_code _ _ (runs_boldLoop s)) in Hc.
  change (length (list_ascii_of_string "**")) with 2 in Hb.
  change (length (list_ascii_of_string "<strong>")) with 8 in Hb.
  change (length (list_ascii_of_string "</strong>")) with 9 in Hb.
  change (length (list_ascii_of_string "`")) with 1 in Hc.
  change (length (list_ascii_of_string "<code>")) with 6 in Hc.
  change (length (list_ascii_of_string "</code>")) with 7 in Hc.
  lia.
Qed.

(** Both loops break at once on the result of [processInlineFormatting]. *)
Lemma processInlineFormatting_breaks (s : list ascii) :
  srv.boldStep (srv.processInlineFormatting s) = None /\
  srv.codeStep (srv.processInlineFormatting s) = None.
Proof.
  split.
  - apply (pairStep_None_iff "**" "<strong>" "</strong>");
      try discriminate; try apply bold_tags_clean.
    unfold srv.processInlineFormatting.
    rewrite (runs_code_keeps_bold _ _ (runs_codeLoop _)),
      boldLoop_delimiters_mod.
    pose proof (Nat.mod_upper_bound (delimiters "**" s) 2). lia.
  - apply (runs_exit _ _ _ (runs_codeLoop _)).
Qed.

(** X4: formatting what is already formatted changes nothing. *)
Theorem processInlineFormatting_idempotent (s : list ascii) :
  srv.processInlineFormatting (srv.processInlineFormatting s)
  = srv.processInlineFormatting s.
Proof.
  destruct (processInlineFormatting_breaks s) as [Hb Hc].
  unfold srv.processInlineFormatting at 1.
  rewrite (runs_fixed _ _ _ Hb (runs_boldLoop _)).
  apply (runs_fixed _ _ _ Hc (runs_codeLoop _)).
Qed.

(** * No quote character in the output *)

Lemma quoteFree_app (s t : list ascii) :
  quoteFree s -> quoteFree t -> quoteFree (s ++ t).
Proof. unfold quoteFree. rewrite forallb_app. now intros -> ->. Qed.

Lemma quoteFree_firstn (n : nat) (s : list ascii) :
  quoteFree s -> quoteFree (firstn n s).
Proof.
  unfold quoteFree. intros H. rewrite <- (firstn_skipn n s), forallb_app in H.
  now apply andb_prop in H.
Qed.

Lemma quoteFree_skipn (n : nat) (s : list ascii) :
  quoteFree s -> quoteFree (skipn n s).
Proof.
  unfold quoteFree. intros H. rewrite <- (firstn_skipn n s), forallb_app in H.
  now apply andb_prop in H.
Qed.

(** Whatever it is given, [HTMLEscapeString] returns no quote character. *)
Lemma quoteFree_HTMLEscapeString (s : list ascii) :
  quoteFree (template.HTMLEscapeString s).
Proof.
  unfold template.HTMLEscapeString.
  induction s as [|a s IH]; [reflexivity|].
  cbn [flat_map]. apply quoteFree_app; [|exact IH].
  unfold template.escaped.
  destruct (Ascii.eqb a "000") eqn:E0; [reflexivity|].
  destruct (Ascii.eqb a DQUOTE) eqn:E1; [reflexivity|].
  destruct (Ascii.eqb a "'") eqn:E2; [reflexivity|].
  destruct (Ascii.eqb a "&"); [reflexivity|].
  destruct (Ascii.eqb a "<"); [reflexivity|].
  destruct (Ascii.eqb a ">"); [reflexivity|].
  unfold quoteFree, quoteFreeb. cbn [forallb]. now rewrite E0, E1, E2.
Qed.

Create HintDb quote.

#[local] Hint Resolve quoteFree_app quoteFree_firstn quoteFree_skipn
  quoteFree_HTMLEscapeString : quote.
#[local] Hint Extern 1 (quoteFree (list_ascii_of_string _)) => reflexivity : quote.
#[local] Hint Extern 1 (quoteFree (_ :: _)) => reflexivity : quote.
#[local] Hint Extern 1 (quoteFree []) => reflexivity : quote.

Lemma quoteFree_WriteString (st : srv.state) (s : list ascii) :
  quoteFree (srv.sb st) -> quoteFree s -> quoteFree (srv.sb (srv.WriteString st s)).
Proof. intros. cbn. auto with quote. Qed.

Lemma quoteFree_setInCodeBlock (st : srv.state) (b : bool) :
  quoteFree (srv.sb st) -> quoteFree (srv.sb (srv.setInCodeBlock st b)).
Proof. exact (fun H => H). Qed.

Lemma quoteFree_setInList (st : srv.state) (b : bool) :
  quoteFree (srv.sb st) -> quoteFree (srv.sb (srv.setInList st b)).
Proof. exact (fun H => H). Qed.

Lemma quoteFree_setParagraph (st : srv.state) (p : list (list ascii)) :
  quoteFree (srv.sb st) -> quoteFree (srv.sb (srv.setParagraph st p)).
Proof. exact (fun H => H). Qed.

#[local] Hint Resolve quoteFree_WriteString quoteFree_setInCodeBlock
  quoteFree_setInList quoteFree_setParagraph : quote.

Lemma quoteFree_flushParagraph (st : srv.state) :
  quoteFree (srv.sb st) -> quoteFree (srv.sb (srv.flushParagraph st)).
Proof.
  intros H. rewrite flushParagraph_spec. cbn [srv.sb].
  apply quoteFree_app; [exact H|].
  unfold paragraphHTML. destruct (srv.paragraph st); auto 10 with quote.
Qed.

Lemma quoteFree_closeList (st : srv.state) :
  quoteFree (srv.sb st) -> quoteFree (srv.sb (srv.closeList st)).
Proof.
  intros H. unfold srv.closeList. destruct (srv.inList st); auto with quote.
Qed.

#[local] Hint Resolve quoteFree_flushParagraph quoteFree_closeList : quote.

Lemma quoteFree_writeHeader (st : srv.state) (t prefix : list ascii) :
  quoteFree (srv.sb st) -> quoteFree (srv.sb (srv.writeHeader st t prefix)).
Proof. intros H. unfold srv.writeHeader. auto 10 with quote. Qed.

#[local] Hint Resolve quoteFree_writeHeader : quote.

Lemma quoteFree_processLine (st : srv.state) (line : list ascii) :
  quoteFree (srv.sb st) -> quoteFree (srv.sb (srv.processLine st line)).
Proof.
  intros H. unfold srv.processLine.
  repeat match goal with
         | |- context [if ?b then _ else _] => destruct b
         end;
    auto 20 with quote.
Qed.

Lemma quoteFree_fold_processLine (lines : list (list ascii)) (st : srv.state) :
  quoteFree (srv.sb st) ->
  quoteFree (srv.sb (fold_left srv.processLine lines st)).
Proof.
  revert st; induction lines as [|l lines IH]; intros st H; [exact H|].
  cbn [fold_left]. apply IH. now apply quoteFree_processLine.
Qed.

Lemma quoteFree_renderBlocks (content : list ascii) :
  quoteFree (srv.renderBlocks content).
Proof.
  unfold srv.renderBlocks, srv.finish.
  apply quoteFree_flushParagraph.
  set (st := fold_left _ _ _).
  assert (H : quoteFree (srv.sb st))
    by (apply quoteFree_fold_processLine; reflexivity).
  repeat match goal with
         | |- context [if ?b then _ else _] => destruct b
         end;
    auto 10 with quote.
Qed.

Lemma quoteFree_pairStep (delim open close s s' : list ascii) :
  quoteFree open -> quoteFree close ->
  quoteFree s -> srv.pairStep delim open close s = Some s' -> quoteFree s'.
Proof.
  intros Ho Hc Hs. unfold srv.pairStep.
  destruct (strings.Index s delim); [|discriminate].
  destruct (strings.Index _ delim); [|discriminate].
  intros [= <-]. auto 10 with quote.
Qed.

Lemma quoteFree_runs (delim open close s r : list ascii) :
  quoteFree open -> quoteFree close ->
  runs (srv.pairStep delim open close) s r -> quoteFree s -> quoteFree r.
Proof.
  intros Ho Hc. induction 1 as [s Hs|s s' r Hs _ IH]; [auto|].
  intros H. apply IH.
  exact (quoteFree_pairStep delim open close s s' Ho Hc H Hs).
Qed.

(** X5: the output of [renderContent] holds no apostrophe, no double quote
    and no NUL byte, whatever the input: [HTMLEscapeString] replaces them
    and no tag of the renderer has one. *)
Theorem renderContent_has_no_quote (content : list ascii) :
  Forall (fun c => c <> "'"%char /\ c <> DQUOTE /\ c <> "000"%char)
    (srv.renderContent content).
Proof.
  assert (H : quoteFree (srv.renderContent content)).
  { unfold srv.renderContent, srv.processInlineFormatting.
    apply (quoteFree_runs "`" "<code>" "</code>" _ _ eq_refl eq_refl
             (runs_codeLoop _)).
    apply (quoteFree_runs "**" "<strong>" "</strong>" _ _ eq_refl eq_refl
             (runs_boldLoop _)).
    apply quoteFree_renderBlocks. }
  apply Forall_forall. intros c Hc.
  unfold quoteFree in H. rewrite forallb_forall in H. specialize (H c Hc).
  unfold quoteFreeb in H.
  destruct (Ascii.eqb_spec c "'"), (Ascii.eqb_spec c DQUOTE),
    (Ascii.eqb_spec c "000"); try discriminate.
  auto.
Qed.

(** * [TrimSpace] and its callers *)

(** The white space at the front is taken whole: nothing of it is left
    behind. *)
Lemma spaceRun_skipn (back : bool) (s : list ascii) :
  strings.spaceRun back (skipn (strings.spaceRun back s) s) = 0.
Proof.
  remember (length s) as n eqn:Hn. revert s Hn.
  induction n as [n IH] using lt_wf_ind. intros s Hn.
  destruct s as [|a t]; [reflexivity|].
  cbn [strings.spaceRun].
  destruct (strings.isASCIISpace a) eqn:Ea.
  { cbn [skipn]. apply (IH (length t)); [subst n; simpl; lia|reflexivity]. }
  destruct t as [|b t2].
  { cbn [skipn strings.spaceRun]. now rewrite Ea. }
  destruct (if back then strings.isSpace2 b a else strings.isSpace2 a b) eqn:E2.
  { cbn [skipn]. apply (IH (length t2)); [subst n; simpl; lia|reflexivity]. }
  destruct t2 as [|c t3].
  { cbn [skipn strings.spaceRun]. now rewrite Ea, E2. }
  destruct (if back then strings.isSpace3 c b a else strings.isSpace3 a b c) eqn:E3.
  { cbn [skipn]. apply (IH (length t3)); [subst n; simpl; lia|reflexivity]. }
  cbn [skipn strings.spaceRun]. now rewrite Ea, E2, E3.
Qed.

(** A string that does not start with white space has no prefix that
    does. *)
Lemma spaceRun_firstn (back : bool) (n : nat) (s : list ascii) :
  strings.spaceRun back s = 0 -> strings.spaceRun back (firstn n s) = 0.
Proof.
  intros H. destruct s as [|a t]; [now rewrite firstn_nil|].
  destruct n as [|n]; [reflexivity|].
  cbn [firstn strings.spaceRun] in *.
  destruct (strings.isASCIISpace a); [discriminate|].
  destruct t as [|b t2]; [now rewrite firstn_nil|].
  destruct n as [|n]; [reflexivity|]. cbn [firstn].
  destruct (if back then strings.isSpace2 b a else strings.isSpace2 a b);
    [discriminate|].
  destruct t2 as [|c t3]; [now rewrite firstn_nil|].
  destruct n as [|n]; [reflexivity|]. cbn [firstn].
  destruct (if back then strings.isSpace3 c b a else strings.isSpace3 a b c);
    [discriminate|reflexivity].
Qed.

(** [TrimSpace] as the front part of what follows the leading white
    space. *)
Lemma TrimSpace_firstn (s : list ascii) :
  strings.TrimSpace s
  = let u := skipn (strings.trimStart s) s in
    firstn (length u - strings.spaceRun true (rev u)) u.
Proof.
  unfold strings.TrimSpace, strings.trimStop. cbn zeta.
  rewrite skipn_firstn_comm, length_skipn. f_equal. lia.
Qed.

(** The result of [TrimSpace] has no white space at either end. *)
Lemma TrimSpace_ends (s : list ascii) :
  strings.spaceRun false (strings.TrimSpace s) = 0 /\
  strings.spaceRun true (rev (strings.TrimSpace s)) = 0.
Proof.
  rewrite TrimSpace_firstn. cbn zeta.
  set (u := skipn (strings.trimStart s) s). split.
  - apply spaceRun_firstn. apply spaceRun_skipn.
  - rewrite <- skipn_rev. apply spaceRun_skipn.
Qed.

Lemma TrimSpace_fixed (s : list ascii) :
  strings.spaceRun false s = 0 ->
  strings.spaceRun true (rev s) = 0 ->
  strings.TrimSpace s = s.
Proof.
  intros H1 H2. unfold strings.TrimSpace, strings.trimStop, strings.trimStart.
  rewrite H1. cbn [skipn]. rewrite H2, Nat.sub_0_r. apply firstn_all.
Qed.

Lemma TrimSpace_idempotent (s : list ascii) :
  strings.TrimSpace (strings.TrimSpace s) = strings.TrimSpace s.
Proof. apply TrimSpace_fixed; apply TrimSpace_ends. Qed.

(** What [TrimSpace] returns does not start with a space. *)
Lemma TrimSpace_no_indent (s : list ascii) :
  strings.HasPrefix (strings.TrimSpace s) "    " = false.
Proof.
  pose proof (proj1 (TrimSpace_ends s)) as H.
  destruct (strings.TrimSpace s) as [|a t]; [reflexivity|].
  cbn [strings.spaceRun] in H.
  change (strings.HasPrefix (a :: t) "    ")
    with (Ascii.eqb a " " && strings.HasPrefix t "   ").
  destruct (Ascii.eqb_spec a " ") as [->|_]; [|reflexivity].
  change (strings.isASCIISpace " ") with true in H. discriminate.
Qed.

(** X6: outside a code block, a line that does not start with four spaces
    is treated as its trimmed form: the white space around it, an
    indentation of up to three spaces included, changes nothing. *)
Theorem processLine_ignores_surrounding_space (st : srv.state) (line : list ascii) :
  strings.HasPrefix line "    " = false ->
  srv.processLine st line = srv.processLine st (strings.TrimSpace line).
Proof.
  intros H. unfold srv.processLine.
  rewrite TrimSpace_idempotent, TrimSpace_no_indent, H.
  cbn [andb]. now rewrite andb_false_r.
Qed.

Lemma processLine_ignores_surrounding_space_witness :
  srv.processLine srv.initial ("  # Title " ++ [LF])
  = srv.processLine srv.initial (strings.TrimSpace ("  # Title " ++ [LF])).
Proof.
  exact (processLine_ignores_surrounding_space srv.initial
           ("  # Title " ++ [LF]) eq_refl).
Defined.

(** X7: the white space around the content does not count for [excerpt]. *)
Theorem excerpt_ignores_surrounding_space (content : list ascii) (maxLen : Z) :
  srv.excerpt (strings.TrimSpace content) maxLen = srv.excerpt content maxLen.
Proof. unfold srv.excerpt. now rewrite TrimSpace_idempotent. Qed.

(** X8: for a [maxLen] that is not negative, the result of [excerpt] is a
    front part of the trimmed content, and it ends with the ellipsis exactly
    when something of the trimmed content was left out. *)
Theorem excerpt_cuts_a_prefix (content : list ascii) (maxLen : Z) :
  (0 <= maxLen)%Z ->
  exists body rest,
    strings.TrimSpace content = body ++ rest /\
    ((rest = [] /\ srv.excerpt content maxLen = Some body) \/
     (rest <> [] /\ srv.excerpt content maxLen = Some (body ++ "..."))).
Proof.
  intros H.
  destruct (excerpt_cases content maxLen H) as [[Hle E]|[Hgt (t & E & Hlen & Ht)]].
  - exists (strings.TrimSpace content), []. rewrite app_nil_r. auto.
  - set (trimmed := strings.TrimSpace content) in *.
    set (slice := firstn (Z.to_nat maxLen) trimmed) in *.
    assert (Hp : exists rest, trimmed = t ++ rest).
    { destruct (strings.LastIndex slice [" "%char]) as [[|idx]|]; subst t.
      - exists (skipn (Z.to_nat maxLen) trimmed). symmetry. apply firstn_skipn.
      - exists (skipn (S idx) slice ++ skipn (Z.to_nat maxLen) trimmed).
        rewrite app_assoc, firstn_skipn. symmetry. apply firstn_skipn.
      - exists (skipn (Z.to_nat maxLen) trimmed). symmetry. apply firstn_skipn. }
    destruct Hp as [rest Hrest]. exists t, rest. split; [exact Hrest|].
    right. split; [|exact E].
    intros ->. rewrite app_nil_r in Hrest. rewrite Hrest in Hgt. lia.
Qed.

Lemma excerpt_cuts_a_prefix_witness :
  exists body rest,
    strings.TrimSpace "The quick brown fox jumps" = body ++ rest /\
    ((rest = [] /\ srv.excerpt "The quick brown fox jumps" 10 = Some body) \/
     (rest <> [] /\
      srv.excerpt "The quick brown fox jumps" 10 = Some (body ++ "..."))).
Proof.
  apply (excerpt_cuts_a_prefix "The quick brown fox jumps" 10). lia.
Defined.

(** * [generateSlug] *)

Lemma Contains_cons (a : ascii) (t d : list ascii) :
  Contains (a :: t) d = strings.HasPrefix (a :: t) d || Contains t d.
Proof.
  unfold Contains. cbn [strings.Index].
  destruct (strings.HasPrefix (a :: t) d); [reflexivity|].
  now destruct (strings.Index t d).
Qed.

Lemma Contains_skipn (n : nat) (s d : list ascii) :
  Contains s d = false -> Contains (skipn n s) d = false.
Proof.
  revert s; induction n as [|n IH]; intros s H; [exact H|].
  destruct s as [|a t]; [exact H|].
  rewrite Contains_cons in H. apply orb_false_elim in H as [_ H].
  cbn [skipn]. now apply IH.
Qed.

Lemma Contains_firstn (n : nat) (s d : list ascii) :
  d <> [] -> Contains s d = false -> Contains (firstn n s) d = false.
Proof.
  intros Hd. revert s; induction n as [|n IH]; intros s H.
  - cbn. unfold Contains. cbn. now rewrite HasPrefix_nil_l.
  - destruct s as [|a t]; [exact H|].
    rewrite Contains_cons in H. apply orb_false_elim in H as [Hp H].
    cbn [firstn]. rewrite Contains_cons, (IH _ H), orb_false_r.
    destruct (strings.HasPrefix (a :: firstn n t) d) eqn:E; [|reflexivity].
    apply (HasPrefix_app_l _ _ (skipn n t)) in E.
    cbn [app] in E. rewrite firstn_skipn in E. congruence.
Qed.

Lemma forallb_firstn {A : Type} (f : A -> bool) (n : nat) (s : list A) :
  forallb f s = true -> forallb f (firstn n s) = true.
Proof.
  intros H. rewrite <- (firstn_skipn n s), forallb_app in H.
  now apply andb_prop in H.
Qed.

Lemma forallb_skipn {A : Type} (f : A -> bool) (n : nat) (s : list A) :
  forallb f s = true -> forallb f (skipn n s) = true.
Proof.
  intros H. rewrite <- (firstn_skipn n s), forallb_app in H.
  now apply andb_prop in H.
Qed.

Lemma HasPrefix_byte_firstn (n : nat) (s : list ascii) (c : ascii) :
  strings.HasPrefix s [c] = false -> strings.HasPrefix (firstn n s) [c] = false.
Proof.
  destruct s as [|a t]; [now rewrite firstn_nil|].
  destruct n; [reflexivity|exact (fun H => H)].
Qed.

(** [TrimLeft] takes a front part away, and what is left does not start
    with the byte. *)
Lemma TrimLeft_skipn (s : list ascii) (c : ascii) :
  exists k, stringsMore.TrimLeft s c = skipn k s.
Proof.
  induction s as [|a t [k IH]]; [now exists 0|].
  cbn [stringsMore.TrimLeft]. destruct (Ascii.eqb a c).
  - exists (S k). exact IH.
  - now exists 0.
Qed.

Lemma TrimLeft_head (s : list ascii) (c : ascii) :
  strings.HasPrefix (stringsMore.TrimLeft s c) [c] = false.
Proof.
  induction s as [|a t IH]; [reflexivity|].
  cbn [stringsMore.TrimLeft]. destruct (Ascii.eqb a c) eqn:E; [exact IH|].
  cbn. now rewrite E.
Qed.

Lemma TrimLeft_fixed (s : list ascii) (c : ascii) :
  strings.HasPrefix s [c] = false -> stringsMore.TrimLeft s c = s.
Proof.
  destruct s as [|a t]; [reflexivity|]. cbn.
  now destruct (Ascii.eqb a c).
Qed.

(** [Trim] returns a slice of its argument. *)
Lemma Trim_slice (s : list ascii) (c : ascii) :
  exists k m, stringsMore.Trim s c = firstn m (skipn k s).
Proof.
  unfold stringsMore.Trim.
  destruct (TrimLeft_skipn s c) as [k ->].
  destruct (TrimLeft_skipn (rev (skipn k s)) c) as [j ->].
  exists k, (length (skipn k s) - j).
  now rewrite skipn_rev, rev_involutive.
Qed.

Lemma Trim_ends (s : list ascii) (c : ascii) :
  strings.HasPrefix (stringsMore.Trim s c) [c] = false /\
  strings.HasPrefix (rev (stringsMore.Trim s c)) [c] = false.
Proof.
  split.
  - unfold stringsMore.Trim.
    destruct (TrimLeft_skipn (rev (stringsMore.TrimLeft s c)) c) as [j ->].
    rewrite skipn_rev, rev_involutive.
    apply HasPrefix_byte_firstn, TrimLeft_head.
  - unfold stringsMore.Trim. rewrite rev_involutive. apply TrimLeft_head.
Qed.

Lemma squeezeHyphens_head (s : list ascii) :
  strings.HasPrefix (regexp.squeezeHyphens s) "-" = strings.HasPrefix s "-".
Proof.
  induction s as [|a t IH]; [reflexivity|].
  cbn [regexp.squeezeHyphens].
  destruct (Ascii.eqb a "-") eqn:Ea; cbn [andb].
  - destruct (strings.HasPrefix t "-") eqn:Et.
    + rewrite IH. cbn. now rewrite Ea.
    + cbn. now rewrite Ea.
  - cbn. now rewrite Ea.
Qed.

Lemma squeezeHyphens_no_double (s : list ascii) :
  Contains (regexp.squeezeHyphens s) "--" = false.
Proof.
  induction s as [|a t IH]; [reflexivity|].
  cbn [regexp.squeezeHyphens].
  destruct (Ascii.eqb a "-" && strings.HasPrefix t "-") eqn:E; [exact IH|].
  rewrite Contains_cons, IH, orb_false_r.
  change (strings.HasPrefix (a :: regexp.squeezeHyphens t) "--")
    with (Ascii.eqb a "-" && strings.HasPrefix (regexp.squeezeHyphens t) "-").
  now rewrite squeezeHyphens_head.
Qed.

Lemma squeezeHyphens_forallb (f : ascii -> bool) (s : list ascii) :
  forallb f s = true -> forallb f (regexp.squeezeHyphens s) = true.
Proof.
  induction s as [|a t IH]; [reflexivity|].
  cbn [forallb regexp.squeezeHyphens]. intros H.
  apply andb_prop in H as [Ha Ht].
  destruct (Ascii.eqb a "-" && strings.HasPrefix t "-"); [auto|].
  cbn [forallb]. now rewrite Ha, IH.
Qed.

Lemma squeezeHyphens_fixed (s : list ascii) :
  Contains s "--" = false -> regexp.squeezeHyphens s = s.
Proof.
  induction s as [|a t IH]; [reflexivity|].
  rewrite Contains_cons. intros H. apply orb_false_elim in H as [Hp Ht].
  cbn [regexp.squeezeHyphens].
  change (strings.HasPrefix (a :: t) "--")
    with (Ascii.eqb a "-" && strings.HasPrefix t "-") in Hp.
  now rewrite Hp, IH.
Qed.

Lemma removeNonSlug_forallb (s : list ascii) :
  forallb regexp.isSlugByte (regexp.removeNonSlug s) = true.
Proof.
  unfold regexp.removeNonSlug. induction s as [|a t IH]; [reflexivity|].
  cbn [filter]. destruct (regexp.isSlugByte a) eqn:E; [|exact IH].
  cbn [forallb]. now rewrite E.
Qed.

Lemma filter_fixed {A : Type} (f : A -> bool) (s : list A) :
  forallb f s = true -> filter f s = s.
Proof.
  induction s as [|a t IH]; [reflexivity|]. cbn. intros H.
  apply andb_prop in H as [-> H]. now rewrite IH.
Qed.

(** A byte of the class is an ASCII byte, is not an upper-case letter and
    is not a space. *)
Lemma isSlugByte_plain (c : ascii) :
  regexp.isSlugByte c = true ->
  stringsMore.isASCII c = true /\ stringsMore.lowerByte c = c /\
  Ascii.eqb c " " = false.
Proof.
  destruct c as [[] [] [] [] [] [] [] []]; intros H;
    try discriminate H; repeat split.
Qed.

Lemma generateSlug_cut (mapToLower : list ascii -> list ascii) (title : list ascii) :
  cmd.generateSlug mapToLower title
  = firstn 50 (uncutSlug mapToLower title).
Proof.
  unfold cmd.generateSlug. fold (uncutSlug mapToLower title).
  destruct (Nat.ltb_spec 50 (length (uncutSlug mapToLower title)));
    [reflexivity|].
  symmetry. now apply firstn_all2.
Qed.

Lemma uncutSlug_shape (mapToLower : list ascii -> list ascii) (title : list ascii) :
  forallb regexp.isSlugByte (uncutSlug mapToLower title) = true /\
  Contains (uncutSlug mapToLower title) "--" = false /\
  strings.HasPrefix (uncutSlug mapToLower title) "-" = false /\
  strings.HasPrefix (rev (uncutSlug mapToLower title)) "-" = false.
Proof.
  unfold uncutSlug.
  set (s := regexp.squeezeHyphens _).
  assert (H1 : forallb regexp.isSlugByte s = true)
    by apply squeezeHyphens_forallb, removeNonSlug_forallb.
  assert (H2 : Contains s "--" = false) by apply squeezeHyphens_no_double.
  destruct (Trim_slice s "-") as (k & m & E).
  repeat split; try apply (Trim_ends s "-").
  - rewrite E. now apply forallb_firstn, forallb_skipn.
  - rewrite E. apply Contains_firstn; [discriminate|]. now apply Contains_skipn.
Qed.

Lemma uncutSlug_fixed (mapToLower : list ascii -> list ascii) (s : list ascii) :
  forallb regexp.isSlugByte s = true ->
  Contains s "--" = false ->
  strings.HasPrefix s "-" = false ->
  strings.HasPrefix (rev s) "-" = false ->
  uncutSlug mapToLower s = s.
Proof.
  intros Hb Hd Hh Hl. unfold uncutSlug.
  assert (Ha : forallb stringsMore.isASCII s = true).
  { apply forallb_forall. intros c Hc.
    apply (proj1 (forallb_forall _ _) Hb) in Hc.
    now apply isSlugByte_plain in Hc. }
  assert (Hlow : stringsMore.ToLower mapToLower s = s).
  { unfold stringsMore.ToLower. rewrite Ha.
    rewrite <- (map_id s) at 2. apply map_ext_in. intros c Hc.
    apply (proj1 (forallb_forall _ _) Hb) in Hc.
    now apply isSlugByte_plain in Hc. }
  assert (Hrep : stringsMore.ReplaceAll s " " "-" = s).
  { unfold stringsMore.ReplaceAll.
    rewrite <- (map_id s) at 2. apply map_ext_in. intros c Hc.
    apply (proj1 (forallb_forall _ _) Hb) in Hc.
    apply isSlugByte_plain in Hc as (_ & _ & ->). reflexivity. }
  rewrite Hlow, Hrep. unfold regexp.removeNonSlug.
  rewrite (filter_fixed _ _ Hb), (squeezeHyphens_fixed _ Hd).
  unfold stringsMore.Trim.
  rewrite (TrimLeft_fixed _ _ Hh), (TrimLeft_fixed _ _ Hl).
  apply rev_involutive.
Qed.

(** X9: a slug is made of lower-case letters, digits and hyphens only, and
    is at most 50 bytes long, whatever the title. *)
Theorem generateSlug_bytes_and_length
  (mapToLower : list ascii -> list ascii) (title : list ascii) :
  forallb regexp.isSlugByte (cmd.generateSlug mapToLower title) = true /\
  length (cmd.generateSlug mapToLower title) <= 50.
Proof.
  rewrite generateSlug_cut. split.
  - apply forallb_firstn, uncutSlug_shape.
  - apply firstn_le_length.
Qed.

(** X10: a slug never starts with a hyphen and never holds two hyphens in
    a row. *)
Theorem generateSlug_hyphens
  (mapToLower : list ascii -> list ascii) (title : list ascii) :
  strings.HasPrefix (cmd.generateSlug mapToLower title) "-" = false /\
  Contains (cmd.generateSlug mapToLower title) "--" = false.
Proof.
  rewrite generateSlug_cut.
  destruct (uncutSlug_shape mapToLower title) as (_ & Hd & Hh & _). split.
  - now apply HasPrefix_byte_firstn.
  - now apply Contains_firstn.
Qed.

(** X11: the hyphens are trimmed before the slug is cut to 50 bytes, so
    only a slug of 50 bytes can end with a hyphen: a shorter one does not. *)
Theorem generateSlug_trailing_hyphen
  (mapToLower : list ascii -> list ascii) (title : list ascii) :
  length (cmd.generateSlug mapToLower title) < 50 ->
  strings.HasPrefix (rev (cmd.generateSlug mapToLower title)) "-" = false.
Proof.
  rewrite generateSlug_cut. intros H.
  rewrite length_firstn in H.
  rewrite firstn_all2 by lia.
  apply uncutSlug_shape.
Qed.

Lemma generateSlug_trailing_hyphen_witness :
  length (cmd.generateSlug (fun s => s) "Hello, World!-") < 50 /\
  strings.HasPrefix (rev (cmd.generateSlug (fun s => s) "Hello, World!-")) "-"
  = false.
Proof.
  split; [vm_compute; lia|].
  apply (generateSlug_trailing_hyphen (fun s => s) "Hello, World!-").
  vm_compute; lia.
Defined.

(** X12: a string that already has the shape of a slug is its own slug. *)
Theorem generateSlug_fixed
  (mapToLower : list ascii -> list ascii) (s : list ascii) :
  slugShaped s -> cmd.generateSlug mapToLower s = s.
Proof.
  intros (Hb & Hd & Hh & Hl & Hn).
  rewrite generateSlug_cut, (uncutSlug_fixed mapToLower s Hb Hd Hh Hl).
  now apply firstn_all2.
Qed.

Lemma generateSlug_fixed_witness :
  slugShaped "hello-world-2" /\
  cmd.generateSlug (fun s => s) "hello-world-2"
  = list_ascii_of_string "hello-world-2".
Proof.
  assert (H : slugShaped "hello-world-2").
  { unfold slugShaped. repeat split; try reflexivity. cbn. lia. }
  split; [exact H|].
  exact (generateSlug_fixed (fun s => s) "hello-world-2" H).
Defined.

(** * A paragraph of one line, and the post of [createPost] *)

Lemma countByte_Forall (c : ascii) (s : list ascii) :
  countByte c s = 0 -> Forall (fun x => x <> c) s.
Proof.
  unfold countByte. induction s as [|a t IH]; [constructor|].
  cbn [filter]. destruct (Ascii.eqb c a) eqn:E; [discriminate|].
  intros H. constructor; [|auto].
  intros ->. now rewrite Ascii.eqb_refl in E.
Qed.

Lemma Split_no_sep (s : list ascii) (sep : ascii) :
  countByte sep s = 0 -> strings.Split s sep = [s].
Proof.
  unfold strings.Split, countByte. induction s as [|a t IH]; [reflexivity|].
  cbn [filter strings.SplitBy]. destruct (Ascii.eqb sep a); [discriminate|].
  intros H. now rewrite (IH H).
Qed.

(** The bytes that [HTMLEscapeString] writes for a byte are the byte or
    bytes of an entity: no star and no backquote comes in. *)
Lemma HTMLEscapeString_no_delimiter (c : ascii) (s : list ascii) :
  c = "*"%char \/ c = "`"%char ->
  Forall (fun x => x <> c) s ->
  Forall (fun x => x <> c) (template.HTMLEscapeString s).
Proof.
  intros Hc. unfold template.HTMLEscapeString.
  induction 1 as [|a t Ha _ IH]; [constructor|].
  cbn [flat_map]. apply Forall_app. split; [|exact IH].
  unfold template.escaped.
  repeat match goal with
         | |- context [Ascii.eqb a ?k] => destruct (Ascii.eqb a k)
         end;
    repeat constructor; try assumption;
    destruct Hc as [-> | ->]; discriminate.
Qed.

Lemma Forall_out_of (c : ascii) (t : list ascii) (delim : list ascii) :
  Forall (fun x => x <> c) t -> (forall x, In x delim -> x = c) ->
  Forall (fun x => ~ In x delim) t.
Proof.
  intros H Hd. eapply Forall_impl; [|exact H].
  intros a Ha Hi. now apply Ha, Hd.
Qed.

Lemma boldLoop_behind (p r : list ascii) :
  inert "**" p -> srv.boldLoop (p ++ r) = p ++ srv.boldLoop r.
Proof.
  intros Hp. apply (runs_det srv.boldStep (p ++ r)); [apply runs_boldLoop|].
  apply (runs_behind "**" "<strong>" "</strong>"); [exact Hp|].
  apply runs_boldLoop.
Qed.

Lemma codeLoop_behind (p r : list ascii) :
  inert "`" p -> srv.codeLoop (p ++ r) = p ++ srv.codeLoop r.
Proof.
  intros Hp. apply (runs_det srv.codeStep (p ++ r)); [apply runs_codeLoop|].
  apply (runs_behind "`" "<code>" "</code>"); [exact Hp|].
  apply runs_codeLoop.
Qed.

(** A paragraph of one line that an empty line ends. *)
Lemma renderBlocks_plain_line (line rest : list ascii) :
  countByte LF line = 0 ->
  strings.TrimSpace line = line ->
  eqs line [] = false ->
  strings.HasPrefix line "## " = false ->
  strings.HasPrefix line "# " = false ->
  strings.HasPrefix line "- " = false ->
  srv.renderBlocks (line ++ [LF; LF] ++ rest)
  = "<p>" ++ template.HTMLEscapeString line ++ "</p>" ++ [LF]
      ++ srv.renderBlocks rest.
Proof.
  intros Hlf Ht He H2 H1 Hl.
  assert (Hi : strings.HasPrefix line "    " = false)
    by (rewrite <- Ht; apply TrimSpace_no_indent).
  unfold srv.renderBlocks. cbn [app].
  rewrite (Split_app line), (Split_app [] _ LF : strings.Split (LF :: _) LF = _).
  rewrite (Split_no_sep line LF Hlf).
  change (strings.Split [] LF) with [@nil ascii].
  cbn [app fold_left].
  assert (E : srv.processLine (srv.processLine srv.initial line) []
              = prepend ("<p>" ++ template.HTMLEscapeString line ++ "</p>" ++ [LF])
                  srv.initial).
  { unfold srv.processLine at 2. rewrite Ht, Hi, He, H2, H1, Hl. cbn.
    unfold prepend. cbn. now rewrite app_nil_r. }
  rewrite E, prepend_fold_processLine, prepend_finish.
  unfold prepend. cbn [srv.sb]. now rewrite <- !app_assoc.
Qed.

Lemma postContent_head (summary : cmd.WikiSummary) :
  exists rest,
    cmd.postContent summary
    = ("Today's random Wikipedia discovery: **" ++ cmd.Title summary ++ "**")
        ++ [LF; LF] ++ rest.
Proof.
  unfold cmd.postContent.
  destruct (negb (eqs (cmd.Description summary) [])); eexists;
    rewrite <- ?app_assoc; cbn [app]; rewrite <- ?app_assoc; cbn [app];
    reflexivity.
Qed.

Lemma spaceRun_stars (t : list ascii) :
  strings.spaceRun true ("*" :: "*" :: t)%char = 0.
Proof.
  cbn. destruct t as [|c t]; [reflexivity|].
  unfold strings.isSpace3. cbn.
  now rewrite ?andb_false_r.
Qed.

Lemma title_line_trimmed (title : list ascii) :
  strings.TrimSpace ("Today's random Wikipedia discovery: **" ++ title ++ "**")
  = "Today's random Wikipedia discovery: **" ++ title ++ "**".
Proof.
  apply TrimSpace_fixed; [reflexivity|].
  rewrite !rev_app_distr, <- app_assoc. apply spaceRun_stars.
Qed.

Lemma Index_at_inert (delim p r : list ascii) :
  inert delim p ->
  strings.Index (p ++ delim ++ r) delim = Some (length p).
Proof.
  intros Hp. rewrite Hp, (Index_here (delim ++ r) delim).
  - cbn. now rewrite Nat.add_0_r.
  - apply strings.HasPrefix_app.
Qed.

(** X13: the post that [createPost] stores opens, once rendered, with a
    paragraph that shows the title in bold, and what follows the first
    empty line is rendered on its own -- for a title without line feed,
    star and backquote. *)
Theorem createPost_renders_title_in_bold
  (mapToLower : list ascii -> list ascii) (dateStr : list ascii)
  (summary : cmd.WikiSummary) :
  countByte LF (cmd.Title summary) = 0 ->
  countByte "*" (cmd.Title summary) = 0 ->
  countByte "`" (cmd.Title summary) = 0 ->
  exists rest,
    cmd.Content (cmd.createPost mapToLower dateStr summary)
    = "Today's random Wikipedia discovery: **" ++ cmd.Title summary ++ "**"
        ++ [LF; LF] ++ rest /\
    srv.renderContent (cmd.Content (cmd.createPost mapToLower dateStr summary))
    = "<p>Today&#39;s random Wikipedia discovery: <strong>"
        ++ template.HTMLEscapeString (cmd.Title summary)
        ++ "</strong></p>" ++ [LF] ++ srv.renderContent rest.
Proof.
  intros Hlf Hstar Hcode.
  destruct (postContent_head summary) as [rest E].
  exists rest. cbn [cmd.createPost cmd.Content]. split.
  { rewrite E. now rewrite <- !app_assoc. }
  rewrite E. unfold srv.renderContent.
  set (title := cmd.Title summary) in *.
  set (RB := srv.renderBlocks rest).
  rewrite renderBlocks_plain_line;
    [| rewrite !srv.countByte_app, Hlf; reflexivity
     | apply title_line_trimmed
     | reflexivity | reflexivity | reflexivity | reflexivity ].
  fold RB.
  unfold template.HTMLEscapeString. rewrite !flat_map_app.
  fold (template.HTMLEscapeString title).
  set (T := template.HTMLEscapeString title).
  assert (Tstar : Forall (fun x => ~ In x (list_ascii_of_string "**")) T).
  { apply (Forall_out_of "*"%char).
    - apply HTMLEscapeString_no_delimiter; [now left|].
      now apply countByte_Forall.
    - intros x [<- | [<- | []]]; reflexivity. }
  assert (Tcode : Forall (fun x => ~ In x (list_ascii_of_string "`")) T).
  { apply (Forall_out_of "`"%char).
    - apply HTMLEscapeString_no_delimiter; [now right|].
      now apply countByte_Forall.
    - intros x [<- | []]; reflexivity. }
  unfold srv.processInlineFormatting.
  transitivity
    (srv.codeLoop
       (srv.boldLoop
          ("<p>Today&#39;s random Wikipedia discovery: " ++ "**" ++ T ++ "**"
             ++ ("</p>" ++ [LF]) ++ RB))).
  { cbn. rewrite <- !app_assoc. reflexivity. }
  rewrite boldLoop_pair;
    [| apply Index_at_inert, inert_clean; [discriminate | clean_tag]
     | apply Index_at_inert, inert_clean; [discriminate | exact Tstar] ].
  rewrite boldLoop_behind by (apply inert_clean; [discriminate | clean_tag]).
  transitivity
    (srv.codeLoop
       (("<p>Today&#39;s random Wikipedia discovery: <strong>" ++ T
           ++ "</strong></p>" ++ [LF]) ++ srv.boldLoop RB)).
  { cbn. rewrite <- !app_assoc. reflexivity. }
  rewrite codeLoop_behind.
  - cbn. rewrite <- !app_assoc. reflexivity.
  - apply inert_app; [apply inert_clean; [discriminate | clean_tag]|].
    apply inert_app; [apply inert_clean; [discriminate | exact Tcode]|].
    apply inert_clean; [discriminate | clean_tag].
Qed.

Lemma createPost_renders_title_in_bold_witness :
  countByte LF "Rocq" = 0 /\ countByte "*" "Rocq" = 0 /\
  countByte "`" "Rocq" = 0 /\
  exists rest,
    cmd.Content
      (cmd.createPost (fun s => s) "2026-01-02"
         (cmd.mkWikiSummary "Rocq" "A proof assistant." "software" "https://x"))
    = "Today's random Wikipedia discovery: **" ++ "Rocq" ++ "**"
        ++ [LF; LF] ++ rest /\
    srv.renderContent
      (cmd.Content
         (cmd.createPost (fun s => s) "2026-01-02"
            (cmd.mkWikiSummary "Rocq" "A proof assistant." "software"
               "https://x")))
    = "<p>Today&#39;s random Wikipedia discovery: <strong>"
        ++ template.HTMLEscapeString "Rocq"
        ++ "</strong></p>" ++ [LF] ++ srv.renderContent rest.
Proof.
  repeat split; try reflexivity.
  apply (createPost_renders_title_in_bold (fun s => s) "2026-01-02"
           (cmd.mkWikiSummary "Rocq" "A proof assistant." "software"
              "https://x"));
    reflexivity.
Defined.

(** * The admin pages *)

Lemma eqs_spec (s t : list ascii) : reflect (s = t) (eqs s t).
Proof.
  revert t; induction s as [|a s IH]; intros [|b t]; cbn;
    try (constructor; congruence).
  destruct (Ascii.eqb_spec a b) as [->|Hab]; cbn.
  - destruct (IH t) as [->|Hst]; constructor; congruence.
  - constructor; congruence.
Qed.

Lemma inAdminEmails_spec (EqualFold : list ascii -> list ascii -> bool)
  (email : list ascii) (admins : list (list ascii)) :
  admin.inAdminEmails EqualFold email admins = true <->
  exists a, In a admins /\ EqualFold email a = true.
Proof.
  induction admins as [|a rest IH]; cbn.
  - split; [discriminate | now intros (a & [] & _)].
  - destruct (EqualFold email a) eqn:E.
    + split; [|reflexivity]. intros _. exists a. auto.
    + rewrite IH. split; intros (b & Hb & Eb).
      * exists b. auto.
      * destruct Hb as [<- | Hb]; [congruence|]. exists b. auto.
Qed.

(** X14: [requireAdmin] lets a request through in exactly three cases: in
    dev mode; with no admin configured, when the request names an email;
    and when the email, without the white space around it, is equal under
    [EqualFold] to one of the admins. *)
Theorem requireAdmin_next_iff
  (EqualFold : list ascii -> list ascii -> bool)
  (AdminEmails : list (list ascii)) (devMode header path : list ascii) :
  admin.requireAdmin EqualFold AdminEmails devMode header path = admin.Next <->
  devMode = list_ascii_of_string "1" \/
  (AdminEmails = [] /\ strings.TrimSpace header <> []) \/
  (exists a, In a AdminEmails /\
             EqualFold (strings.TrimSpace header) a = true).
Proof.
  unfold admin.requireAdmin.
  destruct (eqs_spec devMode "1") as [->|Hdev]; [tauto|].
  destruct AdminEmails as [|a0 rest] eqn:EA; cbn [length Nat.eqb].
  - destruct (eqs_spec (strings.TrimSpace header) []) as [He|He].
    + split; [discriminate|].
      intros [H | [[_ H] | (a & [] & _)]]; contradiction.
    + split; [|reflexivity]. intros _. right. left. now split.
  - rewrite <- EA.
    destruct (admin.inAdminEmails EqualFold (strings.TrimSpace header)
                AdminEmails) eqn:Ein.
    + split; [|reflexivity]. intros _. right. right.
      now apply inAdminEmails_spec.
    + assert (Hno : ~ exists a, In a AdminEmails /\
                      EqualFold (strings.TrimSpace header) a = true).
      { intros H. apply inAdminEmails_spec in H. congruence. }
      destruct (eqs (strings.TrimSpace header) []); split;
        try discriminate;
        intros [H | [[H _] | H]]; try contradiction; congruence.
Qed.

(** X15: a request that names no email is never answered [Forbidden]: when
    it is not let through, [http.Redirect] is called with the login page
    and the path that was asked for, and with status 302; a request that
    names an email is never sent to the login page: when it is not let
    through, [http.Error] is called with [Forbidden] and status 403, and
    then some admin is configured. *)
Theorem requireAdmin_refusal
  (EqualFold : list ascii -> list ascii -> bool)
  (AdminEmails : list (list ascii)) (devMode header path : list ascii) :
  match admin.requireAdmin EqualFold AdminEmails devMode header path with
  | admin.Next => True
  | admin.Redirect url code =>
      strings.TrimSpace header = [] /\
      url = "/__exe.dev/login?redirect=" ++ path /\ code = 302%Z
  | admin.Error msg code =>
      strings.TrimSpace header <> [] /\ AdminEmails <> [] /\
      msg = list_ascii_of_string "Forbidden" /\ code = 403%Z
  end.
Proof.
  unfold admin.requireAdmin.
  destruct (eqs devMode "1"); [exact I|].
  destruct AdminEmails as [|a0 rest] eqn:EA; cbn [length Nat.eqb].
  - destruct (eqs_spec (strings.TrimSpace header) []); [|exact I].
    now repeat split.
  - rewrite <- EA.
    destruct (admin.inAdminEmails EqualFold _ AdminEmails); [exact I|].
    destruct (eqs_spec (strings.TrimSpace header) []).
    + now repeat split.
    + repeat split; [assumption | congruence].
Qed.

(** X16: [HandleAdminCreate] stores a post only with a slug and a title
    that are not empty and have no white space around them; the content is
    stored as it was sent, and the published flag is 1 exactly for the
    form value [on].  A slug or title of white space only is refused with
    the form shown again. *)
Theorem HandleAdminCreate_stores_trimmed
  (slugValue titleValue contentValue publishedValue : list ascii) :
  match admin.HandleAdminCreate slugValue titleValue contentValue
          publishedValue with
  | admin.CreatePost arg =>
      cmd.Slug arg = strings.TrimSpace slugValue /\ cmd.Slug arg <> [] /\
      strings.TrimSpace (cmd.Slug arg) = cmd.Slug arg /\
      cmd.PostTitle arg = strings.TrimSpace titleValue /\
      cmd.PostTitle arg <> [] /\
      strings.TrimSpace (cmd.PostTitle arg) = cmd.PostTitle arg /\
      cmd.Content arg = contentValue /\
      (cmd.Published arg = 1%Z <->
       publishedValue = list_ascii_of_string "on") /\
      (cmd.Published arg = 0%Z \/ cmd.Published arg = 1%Z)
  | admin.FormError _ _ _ _ =>
      strings.TrimSpace slugValue = [] \/ strings.TrimSpace titleValue = []
  end.
Proof.
  unfold admin.HandleAdminCreate.
  destruct (eqs_spec (strings.TrimSpace slugValue) []) as [Hs|Hs];
    [now left|].
  destruct (eqs_spec (strings.TrimSpace titleValue) []) as [Ht|Ht];
    [now right|].
  cbn [orb cmd.Slug cmd.PostTitle cmd.Content cmd.Published].
  rewrite !TrimSpace_idempotent.
  repeat split; try assumption.
  - destruct (eqs_spec publishedValue "on"); [auto | discriminate].
  - intros ->. reflexivity.
  - destruct (eqs publishedValue "on"); auto.
Qed.

(** * The blocks of [renderContent] *)

Lemma Split_Join (ls : list (list ascii)) :
  ls <> [] -> forallb oneLine ls = true ->
  strings.Split (strings.Join ls [LF]) LF = ls.
Proof.
  induction ls as [|l ls IH]; [congruence|]. intros _ H.
  cbn [forallb] in H. apply andb_prop in H as [Hl Hls].
  apply Nat.eqb_eq in Hl.
  destruct ls as [|l' ls'].
  - cbn. now apply Split_no_sep.
  - change (strings.Join (l :: l' :: ls') [LF])
      with (l ++ LF :: strings.Join (l' :: ls') [LF]).
    rewrite Split_app, (Split_no_sep l LF Hl), IH by (congruence || assumption).
    reflexivity.
Qed.

(** Lines that leave nothing open are rendered on their own. *)
Lemma renderBlocks_lines (ls : list (list ascii)) (out rest : list ascii) :
  ls <> [] -> forallb oneLine ls = true ->
  fold_left srv.processLine ls srv.initial = prepend out srv.initial ->
  srv.renderBlocks (strings.Join ls [LF] ++ [LF] ++ rest)
  = out ++ srv.renderBlocks rest.
Proof.
  intros Hne Hls E. unfold srv.renderBlocks. cbn [app].
  rewrite Split_app, (Split_Join ls Hne Hls), fold_left_app, E.
  rewrite prepend_fold_processLine, prepend_finish.
  reflexivity.
Qed.

Lemma Join_snoc_empty (ls : list (list ascii)) (sep : list ascii) :
  ls <> [] -> strings.Join (ls ++ [[]]) sep = strings.Join ls sep ++ sep.
Proof.
  induction ls as [|l ls IH]; [congruence|]. intros _.
  destruct ls as [|l' ls'].
  - cbn. now rewrite app_nil_r.
  - change (strings.Join ((l :: l' :: ls') ++ [[]]) sep)
      with (l ++ sep ++ strings.Join ((l' :: ls') ++ [[]]) sep).
    rewrite IH by congruence.
    change (strings.Join (l :: l' :: ls') sep)
      with (l ++ sep ++ strings.Join (l' :: ls') sep).
    now rewrite <- !app_assoc.
Qed.

Lemma renderBlocks_lines_blank (ls : list (list ascii)) (out rest : list ascii) :
  ls <> [] -> forallb oneLine ls = true ->
  fold_left srv.processLine (ls ++ [[]]) srv.initial = prepend out srv.initial ->
  srv.renderBlocks (strings.Join ls [LF] ++ [LF; LF] ++ rest)
  = out ++ srv.renderBlocks rest.
Proof.
  intros Hne Hls E.
  change (strings.Join ls [LF] ++ [LF; LF] ++ rest)
    with (strings.Join ls [LF] ++ [LF] ++ [LF] ++ rest).
  rewrite app_assoc, <- (Join_snoc_empty ls [LF] Hne).
  apply renderBlocks_lines; [now destruct ls | | exact E].
  rewrite forallb_app, Hls. reflexivity.
Qed.

Lemma forallb_weaken {A : Type} (f g : A -> bool) (l : list A) :
  (forall x, f x = true -> g x = true) ->
  forallb f l = true -> forallb g l = true.
Proof.
  intros Hfg H. apply forallb_forall. intros x Hx.
  apply Hfg. now apply (proj1 (forallb_forall f l) H).
Qed.

(** ** Paragraphs *)

Lemma processLine_textLine (b : list ascii) (q : list (list ascii))
  (line : list ascii) :
  textLine line = true ->
  srv.processLine (srv.mkState b false false q) line
  = srv.mkState b false false (q ++ [strings.TrimSpace line]).
Proof.
  unfold textLine. intros H.
  repeat (apply andb_prop in H as [H ?]).
  unfold srv.processLine.
  repeat match goal with
         | E : negb ?x = true |- _ => apply negb_true_iff in E; rewrite E
         end.
  reflexivity.
Qed.

Lemma fold_textLines (ls : list (list ascii)) (b : list ascii)
  (q : list (list ascii)) :
  forallb textLine ls = true ->
  fold_left srv.processLine ls (srv.mkState b false false q)
  = srv.mkState b false false (q ++ map strings.TrimSpace ls).
Proof.
  revert q; induction ls as [|l ls IH]; intros q H; cbn [fold_left map].
  - now rewrite app_nil_r.
  - cbn [forallb] in H. apply andb_prop in H as [Hl Hls].
    rewrite (processLine_textLine b q l Hl), (IH _ Hls), <- app_assoc.
    reflexivity.
Qed.

(** X17: lines of text that follow one another make one paragraph: they
    are joined, each without the white space around it, by one space, and
    the empty line ends the paragraph. *)
Theorem paragraph_joins_its_lines (ls : list (list ascii)) (rest : list ascii) :
  ls <> [] -> forallb textLine ls = true ->
  srv.renderBlocks (strings.Join ls [LF] ++ [LF; LF] ++ rest)
  = "<p>"
      ++ template.HTMLEscapeString
           (strings.Join (map strings.TrimSpace ls) " ")
      ++ "</p>" ++ [LF] ++ srv.renderBlocks rest.
Proof.
  intros Hne H.
  rewrite (renderBlocks_lines_blank ls
             ("<p>" ++ template.HTMLEscapeString
                         (strings.Join (map strings.TrimSpace ls) " ")
                ++ "</p>" ++ [LF])).
  - now rewrite <- !app_assoc.
  - exact Hne.
  - revert H. apply forallb_weaken. unfold textLine. intros l Hl.
    now repeat (apply andb_prop in Hl as [Hl _]).
  - rewrite fold_left_app. unfold srv.initial.
    rewrite (fold_textLines ls [] [] H). cbn [app fold_left].
    unfold srv.processLine.
    change (strings.HasPrefix [] "    ") with false.
    change (strings.TrimSpace []) with (@nil ascii).
    cbn [andb eqs srv.inCodeBlock]. rewrite flush_close_spec.
    cbn [srv.sb srv.paragraph srv.inList srv.inCodeBlock listEndHTML app].
    destruct ls as [|l ls']; [congruence|].
    unfold prepend. cbn [map paragraphHTML srv.sb srv.inCodeBlock srv.inList
                           srv.paragraph].
    now rewrite !app_nil_r.
Qed.

Lemma paragraph_joins_its_lines_witness :
  srv.renderBlocks
    (strings.Join [list_ascii_of_string "one "; list_ascii_of_string " two"]
       [LF] ++ [LF; LF] ++ "# h")
  = "<p>"
      ++ template.HTMLEscapeString
           (strings.Join
              (map strings.TrimSpace
                 [list_ascii_of_string "one "; list_ascii_of_string " two"])
              " ")
      ++ "</p>" ++ [LF] ++ srv.renderBlocks "# h".
Proof.
  apply (paragraph_joins_its_lines
           [list_ascii_of_string "one "; list_ascii_of_string " two"] "# h");
    [discriminate | reflexivity].
Defined.

(** ** Lists *)

Lemma HasPrefix_item_not_header (t : list ascii) :
  strings.HasPrefix t "- " = true ->
  eqs t [] = false /\ strings.HasPrefix t "## " = false /\
  strings.HasPrefix t "# " = false.
Proof.
  destruct t as [|a t]; [discriminate|]. cbn.
  destruct (Ascii.eqb_spec a "-") as [->|]; [|discriminate].
  now repeat split.
Qed.

Lemma processLine_itemLine (b : list ascii) (open : bool) (line : list ascii) :
  itemLine line = true ->
  srv.processLine (srv.mkState b false open []) line
  = srv.mkState
      (b ++ (if open then [] else "<ul>" ++ [LF]) ++ itemHTML line)
      false true [].
Proof.
  unfold itemLine. intros H.
  apply andb_prop in H as [H Hitem]. apply andb_prop in H as [_ Hind].
  apply negb_true_iff in Hind.
  destruct (HasPrefix_item_not_header _ Hitem) as (He & H2 & H1).
  unfold srv.processLine. rewrite Hind, He, H2, H1, Hitem.
  unfold itemHTML.
  destruct open; cbn; unfold srv.WriteString; cbn; rewrite <- ?app_assoc;
    reflexivity.
Qed.

Lemma fold_itemLines (ls : list (list ascii)) (b : list ascii) :
  forallb itemLine ls = true ->
  fold_left srv.processLine ls (srv.mkState b false true [])
  = srv.mkState (b ++ concat (map itemHTML ls)) false true [].
Proof.
  revert b; induction ls as [|l ls IH]; intros b H; cbn [fold_left map concat].
  - now rewrite app_nil_r.
  - cbn [forallb] in H. apply andb_prop in H as [Hl Hls].
    rewrite (processLine_itemLine b true l Hl), (IH _ Hls).
    cbn [app]. now rewrite <- app_assoc.
Qed.

(** X18: list items that follow one another make one list: [<ul>], one
    [<li>] for each line with the escaped text behind [- ], and [</ul>] at
    the empty line. *)
Theorem list_holds_its_items (ls : list (list ascii)) (rest : list ascii) :
  ls <> [] -> forallb itemLine ls = true ->
  srv.renderBlocks (strings.Join ls [LF] ++ [LF; LF] ++ rest)
  = "<ul>" ++ [LF] ++ concat (map itemHTML ls) ++ "</ul>" ++ [LF]
      ++ srv.renderBlocks rest.
Proof.
  intros Hne H.
  rewrite (renderBlocks_lines_blank ls
             ("<ul>" ++ [LF] ++ concat (map itemHTML ls) ++ "</ul>" ++ [LF])).
  - now rewrite <- !app_assoc.
  - exact Hne.
  - revert H. apply forallb_weaken. unfold itemLine. intros l Hl.
    now repeat (apply andb_prop in Hl as [Hl _]).
  - destruct ls as [|l ls']; [congruence|].
    cbn [forallb] in H. apply andb_prop in H as [Hl Hls].
    cbn [app fold_left]. unfold srv.initial.
    rewrite (processLine_itemLine [] false l Hl), fold_left_app.
    rewrite (fold_itemLines ls' _ Hls). cbn [fold_left].
    unfold srv.processLine.
    change (strings.HasPrefix [] "    ") with false.
    change (strings.TrimSpace []) with (@nil ascii).
    cbn [andb eqs srv.inCodeBlock]. rewrite flush_close_spec.
    cbn [srv.sb srv.paragraph srv.inList srv.inCodeBlock listEndHTML
           paragraphHTML map concat].
    unfold prepend. cbn [srv.sb srv.inCodeBlock srv.inList srv.paragraph].
    f_equal. cbn [app]. rewrite <- !app_assoc. cbn [app].
    now rewrite ?app_nil_r.
Qed.

Lemma list_holds_its_items_witness :
  srv.renderBlocks
    (strings.Join [list_ascii_of_string "- one"; list_ascii_of_string " - <2>"]
       [LF] ++ [LF; LF] ++ "end")
  = "<ul>" ++ [LF]
      ++ concat
           (map itemHTML
              [list_ascii_of_string "- one"; list_ascii_of_string " - <2>"])
      ++ "</ul>" ++ [LF] ++ srv.renderBlocks "end".
Proof.
  apply (list_holds_its_items
           [list_ascii_of_string "- one"; list_ascii_of_string " - <2>"] "end");
    [discriminate | reflexivity].
Defined.

(** ** Code blocks *)

(** The first line starts as the content does. *)
Lemma Split_head (s d : list ascii) (sep : ascii) (l0 : list ascii)
  (more : list (list ascii)) :
  ~ In sep d -> strings.Split s sep = l0 :: more ->
  strings.HasPrefix l0 d = strings.HasPrefix s d.
Proof.
  unfold strings.Split.
  revert d l0 more; induction s as [|a t IH]; intros d l0 more Hd E.
  - cbn in E. now injection E as <- <-.
  - cbn [strings.SplitBy] in E. destruct (Ascii.eqb_spec sep a) as [<-|Hne].
    + injection E as <- <-. destruct d as [|p d]; [reflexivity|].
      cbn. destruct (Ascii.eqb_spec sep p) as [->|]; [|reflexivity].
      exfalso. apply Hd. now left.
    + destruct (SplitBy_cons (Ascii.eqb sep) t) as (piece & rest & Et).
      rewrite Et in E. injection E as <- <-.
      destruct d as [|p d]; [reflexivity|]. cbn. f_equal.
      apply (IH d piece rest); [|exact Et].
      intros Hi. apply Hd. now right.
Qed.

Lemma processLine_codeLine (b : list ascii) (open : bool) (line : list ascii) :
  codeLine line = true ->
  srv.processLine (srv.mkState b open false []) line
  = srv.mkState
      (b ++ (if open then [] else list_ascii_of_string "<pre><code>")
         ++ codeLineHTML line)
      true false [].
Proof.
  unfold codeLine. intros H. apply andb_prop in H as [_ Hind].
  unfold srv.processLine, codeLineHTML. rewrite Hind.
  destruct open; cbn; unfold srv.WriteString; cbn; rewrite <- ?app_assoc;
    reflexivity.
Qed.

Lemma fold_codeLines (ls : list (list ascii)) (b : list ascii) :
  forallb codeLine ls = true ->
  fold_left srv.processLine ls (srv.mkState b true false [])
  = srv.mkState (b ++ concat (map codeLineHTML ls)) true false [].
Proof.
  revert b; induction ls as [|l ls IH]; intros b H; cbn [fold_left map concat].
  - now rewrite app_nil_r.
  - cbn [forallb] in H. apply andb_prop in H as [Hl Hls].
    rewrite (processLine_codeLine b true l Hl), (IH _ Hls).
    cbn [app]. now rewrite <- app_assoc.
Qed.

(** A line that is not indented closes the code block and is then read as
    outside of it. *)
Lemma processLine_closes_code (b : list ascii) (line : list ascii) :
  strings.HasPrefix line "    " = false ->
  srv.processLine (srv.mkState b true false []) line
  = srv.processLine
      (prepend (b ++ "</code></pre>" ++ [LF]) srv.initial) line.
Proof.
  intros H. unfold srv.processLine. rewrite H.
  unfold prepend. cbn. now rewrite !app_nil_r.
Qed.

(** X19: lines indented by four spaces that follow one another make one
    code block, each line escaped without its four spaces and followed by
    a line feed; the block is closed before the first line that is not
    indented, which is rendered as if the content began there. *)
Theorem code_block_holds_its_lines (ls : list (list ascii)) (rest : list ascii) :
  ls <> [] -> forallb codeLine ls = true ->
  strings.HasPrefix rest "    " = false ->
  srv.renderBlocks (strings.Join ls [LF] ++ [LF] ++ rest)
  = "<pre><code>" ++ concat (map codeLineHTML ls) ++ "</code></pre>" ++ [LF]
      ++ srv.renderBlocks rest.
Proof.
  intros Hne H Hrest.
  assert (Hone : forallb oneLine ls = true).
  { revert H. apply forallb_weaken. unfold codeLine. intros l Hl.
    now apply andb_prop in Hl as [Hl _]. }
  unfold srv.renderBlocks. cbn [app].
  rewrite Split_app, (Split_Join ls Hne Hone), fold_left_app.
  destruct (SplitBy_cons (Ascii.eqb LF) rest) as (l0 & more & E).
  fold (strings.Split rest LF) in E. rewrite E.
  assert (H0 : strings.HasPrefix l0 "    " = false).
  { rewrite (Split_head rest "    " LF l0 more); [exact Hrest | | exact E].
    cbn. intuition discriminate. }
  destruct ls as [|l ls']; [congruence|].
  cbn [forallb] in H. apply andb_prop in H as [Hl Hls].
  cbn [fold_left]. unfold srv.initial at 1.
  rewrite (processLine_codeLine [] false l Hl), (fold_codeLines ls' _ Hls).
  rewrite (processLine_closes_code _ l0 H0).
  rewrite prepend_processLine, prepend_fold_processLine, prepend_finish.
  unfold prepend at 1. cbn [srv.sb map concat app].
  rewrite <- !app_assoc. reflexivity.
Qed.

Lemma code_block_holds_its_lines_witness :
  srv.renderBlocks
    (strings.Join
       [list_ascii_of_string "    a <b>"; list_ascii_of_string "      c"]
       [LF] ++ [LF] ++ "- d")
  = "<pre><code>"
      ++ concat
           (map codeLineHTML
              [list_ascii_of_string "    a <b>"; list_ascii_of_string "      c"])
      ++ "</code></pre>" ++ [LF] ++ srv.renderBlocks "- d".
Proof.
  apply (code_block_holds_its_lines
           [list_ascii_of_string "    a <b>"; list_ascii_of_string "      c"]
           "- d");
    [discriminate | reflexivity | reflexivity].
Defined.

(** ** Headers *)

(** What is left of a trimmed line behind a prefix that ends in a space is
    not empty. *)
Lemma TrimPrefix_trimmed (line prefix : list ascii) :
  strings.HasPrefix (strings.TrimSpace line) (prefix ++ " ") = true ->
  strings.TrimPrefix (strings.TrimSpace line) (prefix ++ " ") <> [].
Proof.
  intros H. unfold strings.TrimPrefix. rewrite H.
  pose proof (strings.HasPrefix_split _ _ H) as E.
  destruct (skipn _ (strings.TrimSpace line)) as [|c x]; [|discriminate].
  intros _. destruct (TrimSpace_ends line) as [_ Hend].
  rewrite E, app_nil_r, rev_app_distr in Hend. discriminate Hend.
Qed.

(** X20: a header line, with [# ] or with [## ], is written as one [<h2>]
    with its escaped text, which is never empty; what follows the line is
    rendered on its own. *)
Theorem header_line_renders_h2 (line rest : list ascii) :
  headerLine line = true ->
  headerText line <> [] /\
  srv.renderBlocks (line ++ [LF] ++ rest)
  = "<h2>" ++ template.HTMLEscapeString (headerText line) ++ "</h2>" ++ [LF]
      ++ srv.renderBlocks rest.
Proof.
  unfold headerLine. intros H.
  apply andb_prop in H as [H Hh]. apply andb_prop in H as [Hone Hind].
  apply negb_true_iff in Hind. split.
  - unfold headerText.
    destruct (strings.HasPrefix (strings.TrimSpace line) "## ") eqn:H2.
    + exact (TrimPrefix_trimmed line "##" H2).
    + exact (TrimPrefix_trimmed line "#" Hh).
  - change (line ++ [LF] ++ rest) with (strings.Join [line] [LF] ++ [LF] ++ rest).
    rewrite (renderBlocks_lines [line]
               ("<h2>" ++ template.HTMLEscapeString (headerText line)
                  ++ "</h2>" ++ [LF])).
    + now rewrite <- !app_assoc.
    + discriminate.
    + cbn [forallb]. now rewrite Hone.
    + cbn [fold_left]. unfold srv.processLine, headerText.
      rewrite Hind.
      assert (He : eqs (strings.TrimSpace line) [] = false).
      { destruct (strings.TrimSpace line); [|reflexivity].
        cbn in Hh. discriminate. }
      rewrite He. cbn [andb srv.initial srv.inCodeBlock].
      destruct (strings.HasPrefix (strings.TrimSpace line) "## ") eqn:H2;
        [|cbn [orb] in Hh; rewrite Hh];
        unfold srv.writeHeader; rewrite flush_close_spec;
        unfold prepend, srv.WriteString; cbn; rewrite ?app_nil_r;
        reflexivity.
Qed.

Lemma header_line_renders_h2_witness :
  headerText " ## a & b" <> [] /\
  srv.renderBlocks (" ## a & b" ++ [LF] ++ "text")
  = "<h2>" ++ template.HTMLEscapeString (headerText " ## a & b")
      ++ "</h2>" ++ [LF] ++ srv.renderBlocks "text".
Proof.
  apply (header_line_renders_h2 " ## a & b" "text"). reflexivity.
Defined.
